(** * The to-do screen of R-N-To-Do: a shallow embedding of
      [src/app/(tabs)/index.tsx] and the properties of its task-list state.

    The screen is one React component, [HomeScreen], holding five state
    cells ([tasks], [text], [filter], [editingId], [editingText]) and a
    handful of callbacks that update them.  Each callback is embedded as a
    function from the state before the event to the state after it; the
    values the callbacks read from the platform ([Date.now()],
    [Math.random()], the string stored under [STORAGE_KEY]) are arguments. *)

From Stdlib Require Import List NArith Bool Floats String Ascii Lia Permutation.
Import ListNotations.

Set Implicit Arguments.
Set Warnings "-register-all".

(** ** JavaScript strings

    A JavaScript string is a sequence of UTF-16 code units.  [trim] is
    [String.prototype.trim]: it strips the code units that ECMAScript calls
    WhiteSpace or LineTerminator from both ends. *)

Module JSString.

Definition code_unit := N.
Definition t := list code_unit.

(** An ASCII literal, code unit by code unit. *)
Definition lit (s : string) : t := map N_of_ascii (list_ascii_of_string s).

Definition empty : t := [].

(** [a === b] on strings. *)
Fixpoint eqb (a b : t) : bool :=
  match a, b with
  | [], [] => true
  | x :: a', y :: b' => N.eqb x y && eqb a' b'
  | _, _ => false
  end.

(** [!s] is true of the empty string only. *)
Definition is_empty (s : t) : bool :=
  match s with
  | [] => true
  | _ :: _ => false
  end.

Definition truthy (s : t) : bool := negb (is_empty s).

(** WhiteSpace (TAB, VT, FF, ZWNBSP and the space separators) and
    LineTerminator (LF, CR, LS, PS) of ECMA-262. *)
Definition is_white_space (c : code_unit) : bool :=
  (  N.eqb c 9 || N.eqb c 10 || N.eqb c 11 || N.eqb c 12 || N.eqb c 13
  || N.eqb c 32 || N.eqb c 160 || N.eqb c 5760
  || (N.leb 8192 c && N.leb c 8202)
  || N.eqb c 8232 || N.eqb c 8233 || N.eqb c 8239 || N.eqb c 8287
  || N.eqb c 12288 || N.eqb c 65279)%bool.

Fixpoint trimStart (s : t) : t :=
  match s with
  | [] => []
  | c :: s' => if is_white_space c then trimStart s' else s
  end.

Definition trimEnd (s : t) : t := rev (trimStart (rev s)).

Definition trim (s : t) : t := trimEnd (trimStart s).

End JSString.

Definition jsstring : Set := JSString.t.
Notation "'js' s" := (JSString.lit s%string) (at level 9, s at level 0, only parsing).

(** A JSON text written with apostrophes for its double quotes. *)
Definition jsq (s : string) : jsstring :=
  map (fun c => if N.eqb c 39 then 34%N else c) (JSString.lit s).

(** ** JSON texts

    [JSON.parse] belongs to the platform.  It is modelled after the grammar
    of ECMA-404 as a total function: a scanner that reads the text one code
    unit at a time, and a pushdown recogniser over the tokens that builds
    the value.  [None] stands for the [SyntaxError] that [JSON.parse]
    throws. *)

Module JSON.

(** The values [JSON.parse] can return.  A number is kept as its lexeme: the
    screen never computes with one.  An object lists its members in source
    order; [get] reads a property the way the parsed object would answer,
    the last member of a name winning. *)
Inductive value :=
| VNull
| VBool (b : bool)
| VNumber (lexeme : jsstring)
| VString (s : jsstring)
| VArray (elements : list value)
| VObject (members : list (jsstring * value)).

Fixpoint get (k : jsstring) (members : list (jsstring * value)) : option value :=
  match members with
  | [] => None
  | (k', v) :: rest =>
      match get k rest with
      | Some v' => Some v'
      | None => if JSString.eqb k' k then Some v else None
      end
  end.

Inductive token :=
| LBrace | RBrace | LBracket | RBracket | Colon | Comma
| TString (s : jsstring)
| TNumber (lexeme : jsstring)
| TTrue | TFalse | TNull.

(** Where the scanner stands inside a number: an optional minus sign, then
    a lone zero or a digit string that does not start with zero, then an
    optional fraction (a dot and at least one digit), then an optional
    exponent (e or E, an optional sign, at least one digit). *)
Inductive num_state :=
| NMinus | NZero | NInt | NDot | NFrac | NExp | NExpSign | NExpDigits.

Inductive mode :=
| Idle
| InString (acc : list JSString.code_unit)
| InNumber (n : num_state) (acc : list JSString.code_unit).

Definition is_ws (c : N) : bool :=
  (N.eqb c 9 || N.eqb c 10 || N.eqb c 13 || N.eqb c 32)%bool.

Definition is_digit (c : N) : bool := (N.leb 48 c && N.leb c 57)%bool.

Definition hex_digit (c : N) : option N :=
  if (N.leb 48 c && N.leb c 57)%bool then Some (c - 48)%N
  else if (N.leb 65 c && N.leb c 70)%bool then Some (c - 55)%N
  else if (N.leb 97 c && N.leb c 102)%bool then Some (c - 87)%N
  else None.

Definition hex4 (a b c d : N) : option N :=
  match hex_digit a, hex_digit b, hex_digit c, hex_digit d with
  | Some x, Some y, Some z, Some w => Some (((x * 16 + y) * 16 + z) * 16 + w)%N
  | _, _, _, _ => None
  end.

(** The code unit an escape letter stands for. *)
Definition escape (c : N) : option N :=
  if N.eqb c 34 then Some 34%N          (* quote *)
  else if N.eqb c 92 then Some 92%N     (* backslash *)
  else if N.eqb c 47 then Some 47%N     (* slash *)
  else if N.eqb c 98 then Some 8%N      (* backspace *)
  else if N.eqb c 102 then Some 12%N    (* form feed *)
  else if N.eqb c 110 then Some 10%N    (* line feed *)
  else if N.eqb c 114 then Some 13%N    (* carriage return *)
  else if N.eqb c 116 then Some 9%N     (* tab *)
  else None.

Definition num_accepting (n : num_state) : bool :=
  match n with
  | NZero | NInt | NFrac | NExpDigits => true
  | NMinus | NDot | NExp | NExpSign => false
  end.

Definition num_step (n : num_state) (c : N) : option num_state :=
  match n with
  | NMinus =>
      if N.eqb c 48 then Some NZero
      else if is_digit c then Some NInt else None
  | NZero =>
      if N.eqb c 46 then Some NDot
      else if (N.eqb c 101 || N.eqb c 69)%bool then Some NExp else None
  | NInt =>
      if is_digit c then Some NInt
      else if N.eqb c 46 then Some NDot
      else if (N.eqb c 101 || N.eqb c 69)%bool then Some NExp else None
  | NDot => if is_digit c then Some NFrac else None
  | NFrac =>
      if is_digit c then Some NFrac
      else if (N.eqb c 101 || N.eqb c 69)%bool then Some NExp else None
  | NExp =>
      if (N.eqb c 43 || N.eqb c 45)%bool then Some NExpSign
      else if is_digit c then Some NExpDigits else None
  | NExpSign => if is_digit c then Some NExpDigits else None
  | NExpDigits => if is_digit c then Some NExpDigits else None
  end.

Definition punctuation (c : N) : option token :=
  if N.eqb c 123 then Some LBrace
  else if N.eqb c 125 then Some RBrace
  else if N.eqb c 91 then Some LBracket
  else if N.eqb c 93 then Some RBracket
  else if N.eqb c 58 then Some Colon
  else if N.eqb c 44 then Some Comma
  else None.

Definition emit (t : token) (rest : option (list token)) : option (list token) :=
  option_map (cons t) rest.

Fixpoint scan (m : mode) (s : jsstring) {struct s} : option (list token) :=
  match m with
  | Idle =>
      match s with
      | [] => Some []
      | c :: r =>
          if is_ws c then scan Idle r
          else match punctuation c with
          | Some t => emit t (scan Idle r)
          | None =>
          if N.eqb c 34 then scan (InString []) r
          else if N.eqb c 45 then scan (InNumber NMinus [c]) r
          else if N.eqb c 48 then scan (InNumber NZero [c]) r
          else if is_digit c then scan (InNumber NInt [c]) r
          else if N.eqb c 116 then        (* true *)
            match r with
            | c1 :: c2 :: c3 :: r' =>
                if (N.eqb c1 114 && N.eqb c2 117 && N.eqb c3 101)%bool
                then emit TTrue (scan Idle r') else None
            | _ => None
            end
          else if N.eqb c 102 then        (* false *)
            match r with
            | c1 :: c2 :: c3 :: c4 :: r' =>
                if (N.eqb c1 97 && N.eqb c2 108 && N.eqb c3 115 && N.eqb c4 101)%bool
                then emit TFalse (scan Idle r') else None
            | _ => None
            end
          else if N.eqb c 110 then        (* null *)
            match r with
            | c1 :: c2 :: c3 :: r' =>
                if (N.eqb c1 117 && N.eqb c2 108 && N.eqb c3 108)%bool
                then emit TNull (scan Idle r') else None
            | _ => None
            end
          else None
          end
      end
  | InString acc =>
      match s with
      | [] => None
      | c :: r =>
          if N.eqb c 34 then emit (TString (rev acc)) (scan Idle r)
          else if N.eqb c 92 then
            match r with
            | [] => None
            | e :: r' =>
                if N.eqb e 117 then     (* u and four hex digits *)
                  match r' with
                  | h1 :: h2 :: h3 :: h4 :: r'' =>
                      match hex4 h1 h2 h3 h4 with
                      | Some u => scan (InString (u :: acc)) r''
                      | None => None
                      end
                  | _ => None
                  end
                else match escape e with
                     | Some u => scan (InString (u :: acc)) r'
                     | None => None
                     end
            end
          else if N.ltb c 32 then None
          else scan (InString (c :: acc)) r
      end
  | InNumber n acc =>
      match s with
      | [] => if num_accepting n then Some [TNumber (rev acc)] else None
      | c :: r =>
          match num_step n c with
          | Some n' => scan (InNumber n' (c :: acc)) r
          | None =>
              if num_accepting n then
                if is_ws c then emit (TNumber (rev acc)) (scan Idle r)
                else match punctuation c with
                     | Some t => emit (TNumber (rev acc)) (emit t (scan Idle r))
                     | None => None
                     end
              else None
          end
      end
  end.

(** The recogniser: what may come next, and the containers still open. *)
Inductive expect :=
| EValue
| EValueOrClose
| EKeyOrClose
| EKey
| EColon
| ECommaOrClose
| EEnd (v : value).

Inductive frame :=
| FArray (acc : list value)
| FObject (acc : list (jsstring * value)) (key : option jsstring).

(** A value is complete: it is the whole text, or it goes into the
    innermost open container. *)
Definition reduce (v : value) (stack : list frame) : option (expect * list frame) :=
  match stack with
  | [] => Some (EEnd v, [])
  | FArray acc :: stack' => Some (ECommaOrClose, FArray (v :: acc) :: stack')
  | FObject acc (Some k) :: stack' =>
      Some (ECommaOrClose, FObject ((k, v) :: acc) None :: stack')
  | FObject _ None :: _ => None
  end.

Definition begin_value (t : token) (stack : list frame) : option (expect * list frame) :=
  match t with
  | TNull => reduce VNull stack
  | TTrue => reduce (VBool true) stack
  | TFalse => reduce (VBool false) stack
  | TNumber n => reduce (VNumber n) stack
  | TString s => reduce (VString s) stack
  | LBracket => Some (EValueOrClose, FArray [] :: stack)
  | LBrace => Some (EKeyOrClose, FObject [] None :: stack)
  | RBrace | RBracket | Colon | Comma => None
  end.

Definition begin_key (t : token) (stack : list frame) : option (expect * list frame) :=
  match t, stack with
  | TString k, FObject acc None :: stack' => Some (EColon, FObject acc (Some k) :: stack')
  | _, _ => None
  end.

Definition close (t : token) (stack : list frame) : option (expect * list frame) :=
  match t, stack with
  | RBracket, FArray acc :: stack' => reduce (VArray (rev acc)) stack'
  | RBrace, FObject acc None :: stack' => reduce (VObject (rev acc)) stack'
  | _, _ => None
  end.

Definition step (e : expect) (stack : list frame) (t : token)
  : option (expect * list frame) :=
  match e with
  | EValue => begin_value t stack
  | EValueOrClose =>
      match t with
      | RBracket => close t stack
      | _ => begin_value t stack
      end
  | EKeyOrClose =>
      match t with
      | RBrace => close t stack
      | _ => begin_key t stack
      end
  | EKey => begin_key t stack
  | EColon =>
      match t with
      | Colon => Some (EValue, stack)
      | _ => None
      end
  | ECommaOrClose =>
      match t, stack with
      | Comma, FArray _ :: _ => Some (EValue, stack)
      | Comma, FObject _ None :: _ => Some (EKey, stack)
      | Comma, _ => None
      | _, _ => close t stack
      end
  | EEnd _ => None
  end.

Fixpoint run (e : expect) (stack : list frame) (ts : list token) : option value :=
  match ts with
  | [] => match e with EEnd v => Some v | _ => None end
  | t :: ts' =>
      match step e stack t with
      | Some (e', stack') => run e' stack' ts'
      | None => None
      end
  end.

Definition parse (s : jsstring) : option value :=
  match scan Idle s with
  | Some ts => run EValue [] ts
  | None => None
  end.

End JSON.

(** ** Tasks, filters and the state of the screen *)

Module Task.

(** [type Task = { id: string; title: string; completed: boolean }] *)
Record t := mk { id : jsstring; title : jsstring; completed : bool }.

(** [{ ...t, completed: !t.completed }] *)
Definition flip (x : t) : t :=
  mk (id x) (title x) (negb (completed x)).

(** [{ ...t, title: newTitle }] *)
Definition retitle (newTitle : jsstring) (x : t) : t :=
  mk (id x) newTitle (completed x).

End Task.

Module Filter.

(** [type Filter = 'all' | 'active' | 'completed'] *)
Inductive t := all | active | completed.

End Filter.

(** The five [useState] cells of [HomeScreen]. *)
Record State := mkState {
  tasks : list Task.t;
  text : jsstring;
  filter : Filter.t;
  editingId : option jsstring;   (* [string | null] *)
  editingText : jsstring
}.

(** The state the component mounts with. *)
Definition initial : State :=
  mkState [] JSString.empty Filter.all None JSString.empty.

Definition setTasks (f : list Task.t -> list Task.t) (st : State) : State :=
  mkState (f (tasks st)) (text st) (filter st) (editingId st) (editingText st).

Definition setText (s : jsstring) (st : State) : State :=
  mkState (tasks st) s (filter st) (editingId st) (editingText st).

Definition setFilter (f : Filter.t) (st : State) : State :=
  mkState (tasks st) (text st) f (editingId st) (editingText st).

Definition setEditingId (i : option jsstring) (st : State) : State :=
  mkState (tasks st) (text st) (filter st) i (editingText st).

Definition setEditingText (s : jsstring) (st : State) : State :=
  mkState (tasks st) (text st) (filter st) (editingId st) s.

(** ** The callbacks *)

Section Callbacks.

(** [Number.prototype.toString], the platform's rendering of a double. *)
Variable Number_toString : float -> jsstring.

(** [(Date.now() + Math.random()).toString()]: one binary64 addition, then
    the rendering. *)
Definition newId (now random : float) : jsstring :=
  Number_toString (now + random)%float.

(** [addTask], run when [Date.now()] is [now] and [Math.random()] is
    [random]. *)
Definition addTask (now random : float) (st : State) : State :=
  let title := JSString.trim (text st) in
  if JSString.is_empty title then st
  else
    let newTask := Task.mk (newId now random) title false in
    setText JSString.empty (setTasks (fun prev => newTask :: prev) st).

End Callbacks.

Definition toggleTask (id : jsstring) (st : State) : State :=
  setTasks
    (fun prev =>
       map (fun t => if JSString.eqb (Task.id t) id then Task.flip t else t) prev)
    st.

Definition deleteTask (id : jsstring) (st : State) : State :=
  setTasks
    (fun prev => List.filter (fun t => negb (JSString.eqb (Task.id t) id)) prev)
    st.

Definition startEditing (task : Task.t) (st : State) : State :=
  setEditingText (Task.title task) (setEditingId (Some (Task.id task)) st).

(** [!editingId]: the id is [null] or the empty string. *)
Definition no_editingId (i : option jsstring) : bool :=
  match i with
  | None => true
  | Some s => JSString.is_empty s
  end.

(** [t.id === editingId], with [editingId : string | null]. *)
Definition is_editingId (i : option jsstring) (x : jsstring) : bool :=
  match i with
  | None => false
  | Some s => JSString.eqb x s
  end.

Definition cancelEditing (st : State) : State :=
  setEditingText JSString.empty (setEditingId None st).

Definition commitEditing (st : State) : State :=
  if no_editingId (editingId st) then st
  else
    let newTitle := JSString.trim (editingText st) in
    if JSString.is_empty newTitle then
      setEditingText JSString.empty (setEditingId None st)
    else
      setEditingText JSString.empty
        (setEditingId None
           (setTasks
              (fun prev =>
                 map (fun t => if is_editingId (editingId st) (Task.id t)
                               then Task.retitle newTitle t else t) prev)
              st)).

(** [filteredTasks]: the list handed to the [FlatList]. *)
Definition filteredTasks (st : State) : list Task.t :=
  match filter st with
  | Filter.active => List.filter (fun t => negb (Task.completed t)) (tasks st)
  | Filter.completed => List.filter (fun t => Task.completed t) (tasks st)
  | Filter.all => tasks st
  end.

(** The two counters of the header. *)
Definition total (st : State) : nat := List.length (tasks st).

Definition completed (st : State) : nat :=
  List.length (List.filter (fun t => Task.completed t) (tasks st)).

(** ** Loading at mount

    The effect reads the string stored under [STORAGE_KEY], parses it
    inside a [try] and hands the result to [setTasks].  The annotation
    [const parsed: Task[]] is erased at run time: [setTasks] receives
    whatever [JSON.parse] returned, with no test of its shape.  [loadEffect]
    is the effect as written; [load] then reads the cell back at the type
    the rest of the screen expects, [Task[]], and says so when the value
    stored is not of that type. *)

(** The run-time test that a parsed value is a [Task]: an object whose
    [id] and [title] are strings and whose [completed] is a boolean. *)
Definition task_of_value (v : JSON.value) : option Task.t :=
  match v with
  | JSON.VObject members =>
      match JSON.get (js "id") members,
            JSON.get (js "title") members,
            JSON.get (js "completed") members with
      | Some (JSON.VString i), Some (JSON.VString t), Some (JSON.VBool c) =>
          Some (Task.mk i t c)
      | _, _, _ => None
      end
  | _ => None
  end.

Fixpoint tasks_of_values (vs : list JSON.value) : option (list Task.t) :=
  match vs with
  | [] => Some []
  | v :: vs' =>
      match task_of_value v, tasks_of_values vs' with
      | Some t, Some ts => Some (t :: ts)
      | _, _ => None
      end
  end.

(** The run-time test that a parsed value is a [Task[]]. *)
Definition tasks_of_value (v : JSON.value) : option (list Task.t) :=
  match v with
  | JSON.VArray vs => tasks_of_values vs
  | _ => None
  end.

(** What [await AsyncStorage.getItem(STORAGE_KEY)] gives: the promise is
    rejected, or it resolves to the stored string, [null] when the key is
    absent. *)
Inductive GetItem :=
| Rejected
| Resolved (raw : option jsstring).

(** What the effect does to the [tasks] cell. *)
Inductive LoadEffect :=
| Keep                              (* [setTasks] is not called *)
| Store (parsed : JSON.value).      (* [setTasks(parsed)] *)

Definition loadEffect (item : GetItem) : LoadEffect :=
  match item with
  | Rejected => Keep                (* [catch]: a warning is logged *)
  | Resolved None => Keep
  | Resolved (Some raw) =>
      if JSString.truthy raw then
        match JSON.parse raw with
        | Some parsed => Store parsed
        | None => Keep              (* [catch]: a warning is logged *)
        end
      else Keep
  end.

(** The screen after the effect: a state whose [tasks] cell holds a list of
    tasks, or a [tasks] cell that holds a value that is no [Task[]]. *)
Inductive Loaded :=
| Ready (st : State)
| IllTyped (parsed : JSON.value).

Definition load (item : GetItem) (st : State) : Loaded :=
  match loadEffect item with
  | Keep => Ready st
  | Store parsed =>
      match tasks_of_value parsed with
      | Some ts => Ready (setTasks (fun _ => ts) st)
      | None => IllTyped parsed
      end
  end.

(** ** Saving after every change

    [AsyncStorage.setItem(STORAGE_KEY, JSON.stringify(tasks)).catch(() => {})]
    runs at mount and after every render in which [tasks] changed; a
    rejected write is swallowed.  [JSON.stringify] belongs to the platform:
    it is modelled, after ECMA-262, on the values the cell holds at its
    type, arrays of objects with the keys [id], [title] and [completed] in
    that order (the order in which [addTask] writes them and the spreads of
    [toggleTask] and [commitEditing] keep them). *)

Definition is_high_surrogate (c : N) : bool := (N.leb 55296 c && N.leb c 56319)%bool.

Definition is_low_surrogate (c : N) : bool := (N.leb 56320 c && N.leb c 57343)%bool.

(** The lower-case hexadecimal digit of a number below sixteen. *)
Definition hex_char (d : N) : N := if N.ltb d 10 then (48 + d)%N else (87 + d)%N.

(** Backslash, u and the four hexadecimal digits of a code unit. *)
Definition unicode_escape (c : N) : jsstring :=
  [92; 117; hex_char (c / 4096); hex_char ((c / 256) mod 16);
   hex_char ((c / 16) mod 16); hex_char (c mod 16)]%N.

(** QuoteJSONString without the surrounding quotes: two-character escapes
    for backspace, tab, line feed, form feed, carriage return, the quote and
    the backslash; a unicode escape for the other code units below 32 and
    for a surrogate that is not half of a pair; every other code unit, and
    both halves of a pair, as they are. *)
Fixpoint quote_chars (s : jsstring) : jsstring :=
  match s with
  | [] => []
  | c :: r =>
      if N.eqb c 8 then 92 :: 98 :: quote_chars r
      else if N.eqb c 9 then 92 :: 116 :: quote_chars r
      else if N.eqb c 10 then 92 :: 110 :: quote_chars r
      else if N.eqb c 12 then 92 :: 102 :: quote_chars r
      else if N.eqb c 13 then 92 :: 114 :: quote_chars r
      else if N.eqb c 34 then 92 :: 34 :: quote_chars r
      else if N.eqb c 92 then 92 :: 92 :: quote_chars r
      else if N.ltb c 32 then unicode_escape c ++ quote_chars r
      else if is_high_surrogate c then
        match r with
        | d :: r' =>
            if is_low_surrogate d then c :: d :: quote_chars r'
            else unicode_escape c ++ quote_chars r
        | [] => unicode_escape c
        end
      else if is_low_surrogate c then unicode_escape c ++ quote_chars r
      else c :: quote_chars r
  end%N.

Definition quote (s : jsstring) : jsstring := 34%N :: quote_chars s ++ [34%N].

Definition stringify_task (t : Task.t) : jsstring :=
  jsq "{'id':" ++ quote (Task.id t)
  ++ jsq ",'title':" ++ quote (Task.title t)
  ++ jsq ",'completed':" ++ (if Task.completed t then js "true" else js "false")
  ++ js "}".

(** The elements after the first, each behind its comma. *)
Fixpoint stringify_more (l : list Task.t) : jsstring :=
  match l with
  | [] => []
  | t :: l' => js "," ++ stringify_task t ++ stringify_more l'
  end.

(** [JSON.stringify(tasks)] *)
Definition stringify_tasks (l : list Task.t) : jsstring :=
  match l with
  | [] => js "[]"
  | t :: l' => js "[" ++ stringify_task t ++ stringify_more l' ++ js "]"
  end.

(** The string the save effect hands to [AsyncStorage.setItem]. *)
Definition saveEffect (st : State) : jsstring := stringify_tasks (tasks st).

(** ** The view: how the rows and the header call the callbacks *)

(** The buttons of the alert that [confirmDelete] raises. *)
Inductive AlertButton := Cancelar | Eliminar.

(** [confirmDelete]: only the button [Eliminar] has an [onPress]; [pressed]
    is the button the user chose, [None] when the alert was dismissed.  The
    title is shown in the question and used for nothing else. *)
Definition confirmDelete (id title : jsstring) (pressed : option AlertButton)
                         (st : State) : State :=
  match pressed with
  | Some Eliminar => deleteTask id st
  | Some Cancelar | None => st
  end.

(** [handlePress] of a row, run when [Date.now()] is [now] and
    [lastTapRef.current] is [lastTap]: the new content of the ref and the
    state after the callback it chose. *)
Definition handlePress (now lastTap : float) (onDoubleTap onToggle : State -> State)
                       (st : State) : float * State :=
  (now, if (now - lastTap <? 250)%float then onDoubleTap st else onToggle st).

(** [isEditing={editingId === item.id}] *)
Definition isEditing (st : State) (item : Task.t) : bool :=
  is_editingId (editingId st) (Task.id item).

Section View.

Variable Number_toString : float -> jsstring.

(** What the user can do on the screen, as [HomeScreen] and [renderItem]
    wire it: the header input ([onChangeText={setText}],
    [onSubmitEditing={addTask}] and the add button), the three filter chips,
    and for the row of [item] a press, a long press, and the inline editor
    ([onChangeText={setEditingText}]; [onSubmitEditing] and [onBlur] are
    both [commitEditing]). *)
Inductive Event :=
| InputChange (s : jsstring)
| InputSubmit (now random : float)
| ChipPress (f : Filter.t)
| RowPress (item : Task.t) (now lastTap : float)
| RowLongPress (item : Task.t) (pressed : option AlertButton)
| EditorChange (s : jsstring)
| EditorSubmit.

Definition handle (e : Event) (st : State) : State :=
  match e with
  | InputChange s => setText s st
  | InputSubmit now random => addTask Number_toString now random st
  | ChipPress f => setFilter f st
  | RowPress item now lastTap =>
      snd (handlePress now lastTap (startEditing item) (toggleTask (Task.id item)) st)
  | RowLongPress item pressed =>
      confirmDelete (Task.id item) (Task.title item) pressed st
  | EditorChange s => setEditingText s st
  | EditorSubmit => commitEditing st
  end.

Definition handleAll (es : list Event) (st : State) : State :=
  fold_left (fun s e => handle e s) es st.

End View.

(** A title as the callbacks write it: not empty, and with no white space
    at either end. *)
Definition title_trimmed (t : Task.t) : Prop :=
  Task.title t <> JSString.empty /\ JSString.trim (Task.title t) = Task.title t.

(** The object a task is once it is written and parsed back, and the
    tokens of its text. *)
Definition value_of_task (t : Task.t) : JSON.value :=
  JSON.VObject [(js "id", JSON.VString (Task.id t));
                (js "title", JSON.VString (Task.title t));
                (js "completed", JSON.VBool (Task.completed t))].

Definition task_tokens (t : Task.t) : list JSON.token :=
  [JSON.LBrace;
   JSON.TString (js "id"); JSON.Colon; JSON.TString (Task.id t); JSON.Comma;
   JSON.TString (js "title"); JSON.Colon; JSON.TString (Task.title t); JSON.Comma;
   JSON.TString (js "completed"); JSON.Colon;
   (if Task.completed t then JSON.TTrue else JSON.TFalse);
   JSON.RBrace].

Fixpoint more_tokens (l : list Task.t) : list JSON.token :=
  match l with
  | [] => []
  | t :: l' => JSON.Comma :: task_tokens t ++ more_tokens l'
  end.

(** ** Vocabulary of the specification *)

(** Task ids are unique within the list. *)
Definition ids_unique (l : list Task.t) : Prop := NoDup (map Task.id l).

(** [r] holds exactly the entries of [l] that satisfy [p], in their
    relative order. *)
Inductive selects (p : Task.t -> bool) : list Task.t -> list Task.t -> Prop :=
| selects_nil : selects p [] []
| selects_keep t l r : p t = true -> selects p l r -> selects p (t :: l) (t :: r)
| selects_drop t l r : p t = false -> selects p l r -> selects p (t :: l) r.

(** The number of entries with [completed = true]. *)
Fixpoint count_completed (l : list Task.t) : nat :=
  match l with
  | [] => 0
  | t :: l' => (if Task.completed t then 1 else 0) + count_completed l'
  end.

(** An edit session is open on the task with id [i]. *)
Definition session_on (i : jsstring) (st : State) : Prop := editingId st = Some i.

Definition session_closed (st : State) : Prop := editingId st = None.

(** * Properties *)

(** ** Strings and lists *)

Lemma eqb_eq (a b : jsstring) : JSString.eqb a b = true <-> a = b.
Proof.
  revert b; induction a as [|x a IH]; intros [|y b]; simpl; split;
    try discriminate; try reflexivity.
  - intros H. apply andb_true_iff in H as [Hx Hab].
    apply N.eqb_eq in Hx. apply IH in Hab. now subst.
  - intros H. injection H as -> ->.
    apply andb_true_iff; split; [apply N.eqb_refl | now apply IH].
Qed.

Lemma eqb_refl (a : jsstring) : JSString.eqb a a = true.
Proof. now apply eqb_eq. Qed.

Lemma eqb_neq (a b : jsstring) : JSString.eqb a b = false <-> a <> b.
Proof.
  split.
  - intros H E. apply eqb_eq in E. congruence.
  - intros H. destruct (JSString.eqb a b) eqn:E; [|reflexivity].
    apply eqb_eq in E. contradiction.
Qed.

Lemma is_empty_true (s : jsstring) :
  JSString.is_empty s = true <-> s = JSString.empty.
Proof. unfold JSString.empty. destruct s; simpl; split; intros; congruence. Qed.

Lemma is_empty_false (s : jsstring) :
  JSString.is_empty s = false <-> s <> JSString.empty.
Proof. unfold JSString.empty. destruct s; simpl; split; intros; congruence. Qed.

Lemma map_fixed {A} (f : A -> A) (l : list A) :
  (forall x, In x l -> f x = x) -> map f l = l.
Proof.
  intros H. rewrite <- (map_id l) at 2. now apply map_ext_in.
Qed.

Lemma filter_all {A} (p : A -> bool) (l : list A) :
  (forall x, In x l -> p x = true) -> List.filter p l = l.
Proof.
  induction l as [|a l IH]; simpl; intros H; [reflexivity|].
  rewrite (H a (or_introl eq_refl)). f_equal. apply IH. intros; apply H; now right.
Qed.

Lemma filter_selects (p : Task.t -> bool) (l : list Task.t) :
  selects p l (List.filter p l).
Proof.
  induction l as [|t l IH]; simpl.
  - constructor.
  - destruct (p t) eqn:E; now constructor.
Qed.

(** In a list with unique ids, the entries around [t] carry other ids. *)
Lemma unique_around (l1 l2 : list Task.t) (t : Task.t) :
  ids_unique (l1 ++ t :: l2) ->
  forall x, In x (l1 ++ l2) -> Task.id x <> Task.id t.
Proof.
  unfold ids_unique. rewrite map_app. simpl. intros H x Hx E.
  apply NoDup_remove_2 in H. apply H. rewrite <- map_app, <- E.
  now apply in_map.
Qed.

(** Two states are compared cell by cell. *)
Ltac same_state st := destruct st; unfold setTasks; simpl; f_equal.

(** ** Adding a task *)

Section AddTask.

Variable Number_toString : float -> jsstring.

(** C4.  [addTask] reads the pending input [text]: when its trimmed value
    is empty the state is returned as it was; otherwise the list grows by
    exactly one entry, put at the head, whose title is the trimmed input and
    whose [completed] flag is [false]. *)
Theorem addTask_spec (now random : float) (st : State) :
  let title := JSString.trim (text st) in
  (title = JSString.empty -> addTask Number_toString now random st = st) /\
  (title <> JSString.empty ->
     exists newTask,
       tasks (addTask Number_toString now random st) = newTask :: tasks st /\
       Task.title newTask = title /\
       Task.completed newTask = false /\
       List.length (tasks (addTask Number_toString now random st)) = S (List.length (tasks st))).
Proof.
  intros title. unfold addTask. fold title. split; intros H.
  - apply is_empty_true in H. now rewrite H.
  - apply is_empty_false in H. rewrite H.
    exists (Task.mk (newId Number_toString now random) title false).
    simpl. repeat split.
Qed.

(** C10.  A successful [addTask] resets the pending input to the empty
    string; an [addTask] on an empty or whitespace-only input leaves the
    whole state, the list and the pending input included, as it was.  The
    filter and the edit session are untouched either way. *)
Theorem addTask_text (now random : float) (st : State) :
  (JSString.trim (text st) <> JSString.empty ->
     text (addTask Number_toString now random st) = JSString.empty) /\
  (JSString.trim (text st) = JSString.empty ->
     tasks (addTask Number_toString now random st) = tasks st /\
     text (addTask Number_toString now random st) = text st) /\
  filter (addTask Number_toString now random st) = filter st /\
  editingId (addTask Number_toString now random st) = editingId st /\
  editingText (addTask Number_toString now random st) = editingText st.
Proof.
  unfold addTask.
  destruct (JSString.is_empty (JSString.trim (text st))) eqn:E.
  - apply is_empty_true in E. repeat split; intros; congruence.
  - apply is_empty_false in E. repeat split; simpl; intros; congruence.
Qed.

End AddTask.

Lemma addTask_spec_witness :
  let sample := fun _ : float => js "1700000000000.5" in
  addTask sample 1700000000000 0.5 (setText (js "   ") initial)
    = setText (js "   ") initial /\
  exists newTask,
    tasks (addTask sample 1700000000000 0.5 (setText (js " Buy milk ") initial))
      = newTask :: tasks (setText (js " Buy milk ") initial) /\
    Task.title newTask = js "Buy milk" /\
    Task.completed newTask = false /\
    List.length (tasks (addTask sample 1700000000000 0.5
                          (setText (js " Buy milk ") initial))) = 1.
Proof.
  intros sample. split.
  - refine (proj1 (addTask_spec sample 1700000000000 0.5
                     (setText (js "   ") initial)) _).
    reflexivity.
  - refine (proj2 (addTask_spec sample 1700000000000 0.5
                     (setText (js " Buy milk ") initial)) _).
    vm_compute. discriminate.
Defined.

Lemma addTask_text_witness :
  let sample := fun _ : float => js "1700000000000.5" in
  text (addTask sample 1700000000000 0.5 (setText (js " Buy milk ") initial))
    = JSString.empty /\
  text (addTask sample 1700000000000 0.5 (setText (js "   ") initial)) = js "   ".
Proof.
  intros sample. split.
  - refine (proj1 (addTask_text sample 1700000000000 0.5
                     (setText (js " Buy milk ") initial)) _).
    vm_compute. discriminate.
  - refine (proj2 (proj1 (proj2 (addTask_text sample 1700000000000 0.5
                                   (setText (js "   ") initial))) _)).
    reflexivity.
Defined.

(** ** Toggling a task *)

Lemma toggle_entry_twice (id : jsstring) (t : Task.t) :
  let f := fun x => if JSString.eqb (Task.id x) id then Task.flip x else x in
  f (f t) = t.
Proof.
  simpl. destruct (JSString.eqb (Task.id t) id) eqn:E.
  - simpl. rewrite E. destruct t as [i ti c]. unfold Task.flip. simpl.
    now rewrite negb_involutive.
  - now rewrite E.
Qed.

Lemma toggle_list_unique (l1 l2 : list Task.t) (t : Task.t) :
  ids_unique (l1 ++ t :: l2) ->
  map (fun x => if JSString.eqb (Task.id x) (Task.id t) then Task.flip x else x)
      (l1 ++ t :: l2)
  = l1 ++ Task.flip t :: l2.
Proof.
  intros U. pose proof (unique_around _ _ _ U) as Hother.
  rewrite map_app. simpl. rewrite eqb_refl. f_equal; [|f_equal].
  - apply map_fixed. intros x Hx.
    rewrite (proj2 (eqb_neq _ _)); [reflexivity|].
    apply Hother. apply in_or_app. now left.
  - apply map_fixed. intros x Hx.
    rewrite (proj2 (eqb_neq _ _)); [reflexivity|].
    apply Hother. apply in_or_app. now right.
Qed.

(** X17.  With unique ids, [toggleTask] on the id of an entry [t] of the list
    replaces [t], in place, by the task with the same id and title and the
    opposite [completed] flag, and changes nothing else in the state; on any
    list every entry with another id stays what and where it was; applying
    it twice gives the state back; with an id that no entry carries it
    returns the state as it was. *)
Theorem toggleTask_spec (st : State) :
  (forall l1 t l2,
      tasks st = l1 ++ t :: l2 -> ids_unique (tasks st) ->
      toggleTask (Task.id t) st
      = setTasks
          (fun _ => l1 ++ Task.mk (Task.id t) (Task.title t)
                                  (negb (Task.completed t)) :: l2) st) /\
  (forall id i t,
      nth_error (tasks st) i = Some t -> Task.id t <> id ->
      nth_error (tasks (toggleTask id st)) i = Some t) /\
  (forall id, toggleTask id (toggleTask id st) = st) /\
  (forall id,
      (forall t, In t (tasks st) -> Task.id t <> id) -> toggleTask id st = st).
Proof.
  repeat split.
  - intros l1 t l2 E U. rewrite E in U.
    destruct st as [ts tx fl ei et]. simpl in E. subst ts.
    unfold toggleTask, setTasks. simpl. f_equal.
    now apply toggle_list_unique.
  - intros id i t Hn Hid. unfold toggleTask, setTasks. simpl.
    rewrite nth_error_map, Hn. simpl.
    now rewrite (proj2 (eqb_neq _ _) Hid).
  - intros id. unfold toggleTask. same_state st. rewrite map_map.
    apply map_fixed. intros x _. apply (toggle_entry_twice id x).
  - intros id H. unfold toggleTask. same_state st. apply map_fixed. intros x Hx.
    now rewrite (proj2 (eqb_neq _ _) (H x Hx)).
Qed.

Lemma toggleTask_spec_witness :
  let milk := Task.mk (js "1") (js "Buy milk") false in
  let dog := Task.mk (js "2") (js "Walk dog") false in
  let st := setTasks (fun _ => [dog; milk]) initial in
  toggleTask (js "1") st
    = setTasks (fun _ => [dog; Task.mk (js "1") (js "Buy milk") true]) st /\
  nth_error (tasks (toggleTask (js "1") st)) 0 = Some dog /\
  toggleTask (js "3") st = st.
Proof.
  intros milk dog st.
  pose proof (toggleTask_spec st) as (Hflip & Hother & _ & Hnone).
  split; [|split].
  - apply (Hflip [dog] milk []); [reflexivity|].
    unfold ids_unique. simpl. repeat constructor; simpl; intuition discriminate.
  - apply (Hother (js "1") 0 dog); [reflexivity | discriminate].
  - apply Hnone. simpl. intros t [<-|[<-|[]]]; discriminate.
Defined.

(** ** Deleting a task *)

Lemma delete_list_unique (l1 l2 : list Task.t) (t : Task.t) :
  ids_unique (l1 ++ t :: l2) ->
  List.filter (fun x => negb (JSString.eqb (Task.id x) (Task.id t))) (l1 ++ t :: l2)
  = l1 ++ l2.
Proof.
  intros U. pose proof (unique_around _ _ _ U) as Hother.
  rewrite filter_app. simpl. rewrite eqb_refl. simpl. f_equal.
  - apply filter_all. intros x Hx.
    rewrite (proj2 (eqb_neq _ _)); [reflexivity|].
    apply Hother. apply in_or_app. now left.
  - apply filter_all. intros x Hx.
    rewrite (proj2 (eqb_neq _ _)); [reflexivity|].
    apply Hother. apply in_or_app. now right.
Qed.

(** X18.  [deleteTask] keeps exactly the entries that carry another id, in
    their relative order, and touches nothing else in the state; with an id
    that no entry carries it returns the state as it was.  With unique ids
    it takes out of the list exactly one entry, the one that carries the id,
    the entries before and after it staying as they were, and either way
    the list loses at most one entry. *)
Theorem deleteTask_spec (st : State) (id : jsstring) :
  selects (fun t => negb (JSString.eqb (Task.id t) id))
          (tasks st) (tasks (deleteTask id st)) /\
  ((forall t, In t (tasks st) -> Task.id t <> id) -> deleteTask id st = st) /\
  (ids_unique (tasks st) ->
     (forall t, In t (tasks st) -> Task.id t = id ->
        exists l1 l2,
          tasks st = l1 ++ t :: l2 /\
          deleteTask id st = setTasks (fun _ => l1 ++ l2) st /\
          S (List.length (tasks (deleteTask id st))) = List.length (tasks st)) /\
     List.length (tasks (deleteTask id st)) <= List.length (tasks st) /\
     List.length (tasks st) <= S (List.length (tasks (deleteTask id st)))).
Proof.
  assert (Hout : (forall t, In t (tasks st) -> Task.id t <> id) -> deleteTask id st = st).
  { intros H. unfold deleteTask. same_state st. apply filter_all. intros x Hx.
    now rewrite (proj2 (eqb_neq _ _) (H x Hx)). }
  split; [apply filter_selects|]. split; [exact Hout|].
  intros U.
  assert (Hin : forall t, In t (tasks st) -> Task.id t = id ->
     exists l1 l2,
       tasks st = l1 ++ t :: l2 /\
       deleteTask id st = setTasks (fun _ => l1 ++ l2) st /\
       S (List.length (tasks (deleteTask id st))) = List.length (tasks st)).
  { intros t Ht <-. apply in_split in Ht as (l1 & l2 & E).
    exists l1, l2. rewrite E in U.
    destruct st as [ts tx fl ei et]. simpl in E. subst ts.
    unfold deleteTask, setTasks. simpl.
    rewrite (delete_list_unique _ _ _ U). repeat split.
    rewrite !length_app. simpl. lia. }
  split; [exact Hin|]. split.
  - unfold deleteTask, setTasks. simpl. apply filter_length_le.
  - destruct (existsb (fun t => JSString.eqb (Task.id t) id) (tasks st)) eqn:E.
    + apply existsb_exists in E as (t & Ht & Hid). apply eqb_eq in Hid.
      destruct (Hin t Ht Hid) as (_ & _ & _ & _ & HS). lia.
    + rewrite Hout; [lia|]. intros t Ht Hid.
      assert (existsb (fun t => JSString.eqb (Task.id t) id) (tasks st) = true).
      { apply existsb_exists. exists t. split; [assumption | now apply eqb_eq]. }
      congruence.
Qed.

Lemma deleteTask_spec_witness :
  let milk := Task.mk (js "1") (js "Buy milk") false in
  let dog := Task.mk (js "2") (js "Walk dog") false in
  let st := setTasks (fun _ => [dog; milk]) initial in
  (exists l1 l2,
      tasks st = l1 ++ dog :: l2 /\
      deleteTask (js "2") st = setTasks (fun _ => l1 ++ l2) st /\
      S (List.length (tasks (deleteTask (js "2") st))) = List.length (tasks st)) /\
  List.length (tasks st) <= S (List.length (tasks (deleteTask (js "2") st))) /\
  deleteTask (js "3") st = st.
Proof.
  intros milk dog st.
  assert (U : ids_unique (tasks st)).
  { unfold ids_unique. simpl. repeat constructor; simpl; intuition discriminate. }
  pose proof (deleteTask_spec st (js "2")) as (_ & _ & Hu).
  destruct (Hu U) as (Hin & _ & Hle).
  split; [|split; [exact Hle|]].
  - apply Hin; [left; reflexivity | reflexivity].
  - apply (proj1 (proj2 (deleteTask_spec st (js "3")))).
    simpl. intros t [<-|[<-|[]]]; discriminate.
Defined.

(** ** The visible list and the counters *)

(** [selects] names one list: the specification's selection is a function
    of the list and the test. *)
Lemma selects_unique (p : Task.t -> bool) (l r r' : list Task.t) :
  selects p l r -> selects p l r' -> r = r'.
Proof.
  intros H. revert r'.
  induction H as [|t l r Hp _ IH|t l r Hp _ IH]; intros r' H';
    inversion H'; subst; try congruence.
  - f_equal. now apply IH.
  - now apply IH.
Qed.

Lemma selects_In (p : Task.t -> bool) (l r : list Task.t) :
  selects p l r -> forall t, In t r <-> In t l /\ p t = true.
Proof.
  intros H. apply selects_unique with (r' := List.filter p l) in H.
  - subst r. intros t. apply filter_In.
  - apply filter_selects.
Qed.

Lemma count_completed_filter (l : list Task.t) :
  List.length (List.filter (fun t => Task.completed t) l) = count_completed l.
Proof.
  induction l as [|t l IH]; simpl; [reflexivity|].
  destruct (Task.completed t); simpl; now rewrite IH.
Qed.

Lemma count_completed_le (l : list Task.t) :
  count_completed l <= List.length l.
Proof.
  induction l as [|t l IH]; simpl; [lia|].
  destruct (Task.completed t); lia.
Qed.

(** C8.  Under [all] the visible list is the full list, in the same order;
    under [active] it holds exactly the entries with [completed = false],
    under [completed] exactly those with [completed = true], each in the
    relative order of the full list; the two selections split the list:
    every entry is in one of them and none is in both. *)
Theorem filteredTasks_spec (st : State) :
  filteredTasks (setFilter Filter.all st) = tasks st /\
  selects (fun t => negb (Task.completed t)) (tasks st)
          (filteredTasks (setFilter Filter.active st)) /\
  selects (fun t => Task.completed t) (tasks st)
          (filteredTasks (setFilter Filter.completed st)) /\
  (forall t, In t (filteredTasks (setFilter Filter.active st))
             <-> In t (tasks st) /\ Task.completed t = false) /\
  (forall t, In t (filteredTasks (setFilter Filter.completed st))
             <-> In t (tasks st) /\ Task.completed t = true) /\
  Permutation (filteredTasks (setFilter Filter.completed st)
               ++ filteredTasks (setFilter Filter.active st))
              (tasks st).
Proof.
  unfold filteredTasks, setFilter. simpl.
  split; [reflexivity|].
  split; [apply filter_selects|].
  split; [apply filter_selects|].
  split; [intros t; rewrite filter_In, negb_true_iff; reflexivity|].
  split; [intros t; apply filter_In|].
  induction (tasks st) as [|t l IH]; simpl; [constructor|].
  destruct (Task.completed t); simpl.
  - now constructor.
  - apply Permutation_sym, Permutation_cons_app, Permutation_sym, IH.
Qed.

(** C9.  Whatever the current filter, [total] is the length of the full
    list and [completed] is the number of its entries with
    [completed = true]; hence [0 <= completed <= total]. *)
Theorem counters_spec (st : State) (f : Filter.t) :
  total (setFilter f st) = List.length (tasks st) /\
  completed (setFilter f st) = count_completed (tasks st) /\
  0 <= completed (setFilter f st) /\
  completed (setFilter f st) <= total (setFilter f st).
Proof.
  unfold total, completed, setFilter. simpl.
  rewrite count_completed_filter.
  repeat split; [lia | apply count_completed_le].
Qed.

(** ** Editing a title *)

(** C3, as the code has it.  [startEditing] takes the task record of the
    row that was tapped, not an id, and looks nothing up: it always opens
    the session on the record's id, with the record's title as the draft,
    and touches nothing else.  When the record is an entry of the list and
    ids are unique, the draft is the current title of the one entry that
    carries the id. *)
Theorem startEditing_spec (task : Task.t) (st : State) :
  (session_on (Task.id task) (startEditing task st) /\
   editingText (startEditing task st) = Task.title task /\
   tasks (startEditing task st) = tasks st /\
   text (startEditing task st) = text st /\
   filter (startEditing task st) = filter st) /\
  (In task (tasks st) -> ids_unique (tasks st) ->
   forall t, In t (tasks st) -> Task.id t = Task.id task ->
             editingText (startEditing task st) = Task.title t).
Proof.
  split; [repeat split|].
  intros Hin U t Ht E. simpl.
  apply in_split in Hin as (l1 & l2 & El). rewrite El in U, Ht.
  destruct (in_elt_inv _ _ _ _ Ht) as [<-|Ht']; [reflexivity|].
  exfalso. exact (unique_around _ _ _ U t Ht' E).
Qed.

Lemma startEditing_spec_witness :
  let milk := Task.mk (js "1") (js "Buy milk") false in
  let dog := Task.mk (js "2") (js "Walk dog") false in
  let st := setTasks (fun _ => [dog; milk]) initial in
  editingText (startEditing milk st) = js "Buy milk".
Proof.
  intros milk dog st.
  refine (proj2 (startEditing_spec milk st) _ _ milk _ eq_refl).
  - simpl. right. left. reflexivity.
  - unfold ids_unique. simpl. repeat constructor; simpl; intuition discriminate.
  - simpl. right. left. reflexivity.
Defined.

(** C3, as the claim has it, fails: on the empty list no entry carries the
    id of the record, no session is open, and [startEditing] opens one. *)
Lemma startEditing_unlisted_opens :
  let ghost := Task.mk (js "x") (js "t") false in
  (forall t, In t (tasks initial) -> Task.id t <> Task.id ghost) /\
  session_closed initial /\
  ~ session_closed (startEditing ghost initial) /\
  session_on (js "x") (startEditing ghost initial).
Proof.
  intros ghost. repeat split.
  - intros t [].
  - unfold session_closed. simpl. discriminate.
Qed.

Lemma retitle_entries (eid newTitle : jsstring) (l : list Task.t) (i : nat) (t : Task.t) :
  nth_error l i = Some t ->
  exists t',
    nth_error
      (map (fun x => if is_editingId (Some eid) (Task.id x)
                     then Task.retitle newTitle x else x) l) i = Some t' /\
    Task.id t' = Task.id t /\
    Task.completed t' = Task.completed t /\
    (Task.id t = eid -> Task.title t' = newTitle) /\
    (Task.id t <> eid -> t' = t).
Proof.
  intros Hn. rewrite nth_error_map, Hn. simpl.
  destruct (JSString.eqb (Task.id t) eid) eqn:E.
  - exists (Task.retitle newTitle t). apply eqb_eq in E. repeat split.
    intros N. contradiction.
  - exists t. apply eqb_neq in E. repeat split.
    intros N. contradiction.
Qed.

(** X16.  [commitEditing] tests [!editingId]: it returns
    the state as it was when [editingId] is [null] and also when it is the
    empty string.  With a session on a non-empty id: an empty trimmed draft
    closes the session and leaves every task as it was; a non-empty trimmed
    draft closes the session, gives every entry that carries the id exactly
    the trimmed draft as its title, and leaves the ids, the [completed]
    flags, the order and the entries with other ids as they were. *)
Theorem commitEditing_spec (st : State) :
  (editingId st = None \/ editingId st = Some JSString.empty ->
   commitEditing st = st) /\
  (forall eid,
      session_on eid st -> eid <> JSString.empty ->
      let newTitle := JSString.trim (editingText st) in
      session_closed (commitEditing st) /\
      editingText (commitEditing st) = JSString.empty /\
      text (commitEditing st) = text st /\
      filter (commitEditing st) = filter st /\
      (newTitle = JSString.empty -> tasks (commitEditing st) = tasks st) /\
      (newTitle <> JSString.empty ->
         List.length (tasks (commitEditing st)) = List.length (tasks st) /\
         forall i t,
           nth_error (tasks st) i = Some t ->
           exists t',
             nth_error (tasks (commitEditing st)) i = Some t' /\
             Task.id t' = Task.id t /\
             Task.completed t' = Task.completed t /\
             (Task.id t = eid -> Task.title t' = newTitle) /\
             (Task.id t <> eid -> t' = t))).
Proof.
  split.
  - unfold commitEditing. intros [-> | ->]; reflexivity.
  - intros eid Hs Hne newTitle. unfold session_on in Hs.
    apply is_empty_false in Hne.
    unfold commitEditing, session_closed. rewrite Hs. simpl. rewrite Hne.
    fold newTitle.
    destruct (JSString.is_empty newTitle) eqn:E; simpl.
    + apply is_empty_true in E. repeat split. intros N. contradiction.
    + apply is_empty_false in E. repeat split.
      * intros N. contradiction.
      * apply length_map.
      * intros i t Hn. now apply retitle_entries.
Qed.

Lemma commitEditing_spec_witness :
  let milk := Task.mk (js "1") (js "Buy milk") false in
  let st := setEditingText (js "  New Title  ")
              (startEditing milk (setTasks (fun _ => [milk]) initial)) in
  session_closed (commitEditing st) /\
  exists t',
    nth_error (tasks (commitEditing st)) 0 = Some t' /\
    Task.title t' = js "New Title".
Proof.
  intros milk st.
  pose proof (proj2 (commitEditing_spec st) (js "1") eq_refl) as H.
  assert (Hne : js "1" <> JSString.empty) by discriminate.
  specialize (H Hne). destruct H as (Hc & _ & _ & _ & _ & Hset).
  split; [exact Hc|].
  assert (Hd : JSString.trim (editingText st) <> JSString.empty)
    by (vm_compute; discriminate).
  destruct (Hset Hd) as [_ Hent].
  destruct (Hent 0 milk eq_refl) as (t' & Hn & _ & _ & Ht & _).
  exists t'. split; [exact Hn|]. exact (Ht eq_refl).
Defined.

(** C5 at its failing input.  A task whose id is the empty string is
    loaded from storage like any other; a double tap opens the session on
    it, its row shows the editor, and typing sets the draft.  The guard
    [if (!editingId) return;] then takes the empty string for [null]:
    [commitEditing] returns the state as it was, the session stays open and
    the title is not written, where the claim has the title set to the
    trimmed draft and the session closed. *)
Lemma commitEditing_empty_id_stuck :
  let stored := jsq "[{'id':'','title':'a','completed':false}]" in
  let task := Task.mk JSString.empty (js "a") false in
  let loaded := setTasks (fun _ => [task]) initial in
  let st := setEditingText (js "b") (startEditing task loaded) in
  load (Resolved (Some stored)) initial = Ready loaded /\
  session_on JSString.empty st /\
  JSString.trim (editingText st) = js "b" /\
  commitEditing st = st /\
  ~ session_closed (commitEditing st) /\
  map Task.title (tasks (commitEditing st)) = [js "a"].
Proof.
  intros stored task loaded st. repeat split.
  unfold session_closed. simpl. discriminate.
Qed.

(** ** Loading *)

Lemma parse_empty : JSON.parse JSString.empty = None.
Proof. reflexivity. Qed.

(** A rejected read, an absent key, an empty string and a text that is not
    JSON leave the state as it was: the list the component mounted with,
    the empty one, stays. *)
Lemma load_rejected (st : State) : load Rejected st = Ready st.
Proof. reflexivity. Qed.

Lemma load_absent (st : State) : load (Resolved None) st = Ready st.
Proof. reflexivity. Qed.

Lemma load_empty_string (st : State) :
  load (Resolved (Some JSString.empty)) st = Ready st.
Proof. reflexivity. Qed.

Lemma load_syntax_error (raw : jsstring) (st : State) :
  JSON.parse raw = None -> load (Resolved (Some raw)) st = Ready st.
Proof.
  intros H. unfold load, loadEffect. rewrite H.
  now destruct (JSString.truthy raw).
Qed.

Lemma load_not_json :
  load (Resolved (Some (js "not json"))) initial = Ready initial.
Proof. reflexivity. Qed.

(** A text that parses to an array of task records replaces the list
    wholesale. *)
Lemma load_conforming (raw : jsstring) (v : JSON.value) (ts : list Task.t) (st : State) :
  JSON.parse raw = Some v -> tasks_of_value v = Some ts ->
  load (Resolved (Some raw)) st = Ready (setTasks (fun _ => ts) st).
Proof.
  intros Hp Hv. unfold load, loadEffect.
  destruct raw as [|c s]; [discriminate|].
  rewrite Hp. change (JSString.truthy (c :: s)) with true. cbv beta iota.
  now rewrite Hv.
Qed.

Lemma load_two_tasks :
  load (Resolved (Some (jsq
    "[{'id':'2','title':'Walk dog','completed':false},{'id':'1','title':'Buy milk','completed':true}]")))
    initial
  = Ready (setTasks (fun _ => [Task.mk (js "2") (js "Walk dog") false;
                               Task.mk (js "1") (js "Buy milk") true]) initial).
Proof. reflexivity. Qed.

(** Any other text that parses is stored as it is. *)
Lemma load_unchecked (raw : jsstring) (v : JSON.value) (st : State) :
  JSON.parse raw = Some v -> tasks_of_value v = None ->
  load (Resolved (Some raw)) st = IllTyped v.
Proof.
  intros Hp Hv. unfold load, loadEffect.
  destruct raw as [|c s]; [discriminate|].
  rewrite Hp. change (JSString.truthy (c :: s)) with true. cbv beta iota.
  now rewrite Hv.
Qed.

(** C1 at its failing inputs.  The stored strings [null], [42], [{'a':1}]
    (with double quotes) and [[1]] are valid JSON and none is an array of
    task records; the effect does not fall back to the empty list: it hands
    the parsed value to [setTasks], so that the [tasks] cell holds [null], a
    number, an object, an array of numbers. *)
Theorem load_stores_non_list :
  load (Resolved (Some (js "null"))) initial = IllTyped JSON.VNull /\
  load (Resolved (Some (js "42"))) initial = IllTyped (JSON.VNumber (js "42")) /\
  load (Resolved (Some (jsq "{'a':1}"))) initial
    = IllTyped (JSON.VObject [(js "a", JSON.VNumber (js "1"))]) /\
  load (Resolved (Some (js "[1]"))) initial
    = IllTyped (JSON.VArray [JSON.VNumber (js "1")]).
Proof. repeat split. Qed.

(** ** Ids *)

Section Ids.

Variable Number_toString : float -> jsstring.

(** The id is a function of the rounded sum alone. *)
Lemma newId_sum (now now' random random' : float) :
  (now + random = now' + random')%float ->
  newId Number_toString now random = newId Number_toString now' random'.
Proof. unfold newId. now intros ->. Qed.

(** C2 at its failing input.  Two tasks are added within the same
    millisecond, [Date.now() = 1700000000000]; [Math.random()] returns 0.5
    the first time and 0.5 + 2^-20 the second.  Doubles near 1.7e12 are
    2^-12 apart, so both sums round to 1700000000000.5: the second task
    gets the id of the first, whatever the rendering of numbers is. *)
Theorem addTask_id_collision :
  let now := 1700000000000%float in
  let r1 := 0.5%float in
  let r2 := 0x1.00002p-1%float in
  let s1 := addTask Number_toString now r1 (setText (js "a") initial) in
  let s2 := addTask Number_toString now r2 (setText (js "b") s1) in
  (0 <=? r1)%float = true /\ (r1 <? r2)%float = true /\ (r2 <? 1)%float = true /\
  ids_unique (tasks s1) /\
  map Task.title (tasks s2) = [js "b"; js "a"] /\
  map Task.id (tasks s2) = [newId Number_toString now r1; newId Number_toString now r1] /\
  ~ ids_unique (tasks s2).
Proof.
  intros now r1 r2 s1 s2.
  split; [reflexivity|]. split; [reflexivity|]. split; [reflexivity|].
  split.
  { unfold ids_unique. simpl. repeat constructor. intros []. }
  split; [reflexivity|]. split; [reflexivity|].
  unfold ids_unique. intros H.
  change (map Task.id (tasks s2))
    with [newId Number_toString now r1; newId Number_toString now r1] in H.
  inversion H as [|x l Hnot _]. apply Hnot. now left.
Qed.

(** C6 at its failing input.  In the list of C2, reached by two calls of
    [addTask] within one millisecond, the tasks titled b and a carry the
    same id.  [toggleTask] on the id of the first flips every entry whose
    id matches: the second task, another task, is flipped as well. *)
Theorem toggleTask_duplicate_ids :
  let now := 1700000000000%float in
  let r1 := 0.5%float in
  let r2 := 0x1.00002p-1%float in
  let s1 := addTask Number_toString now r1 (setText (js "a") initial) in
  let s2 := addTask Number_toString now r2 (setText (js "b") s1) in
  let newer := Task.mk (newId Number_toString now r2) (js "b") false in
  let older := Task.mk (newId Number_toString now r1) (js "a") false in
  tasks s2 = [newer; older] /\
  older <> newer /\
  tasks (toggleTask (Task.id newer) s2) = [Task.flip newer; Task.flip older] /\
  Task.flip older <> older.
Proof.
  intros now r1 r2 s1 s2 newer older.
  split; [reflexivity|]. split; [discriminate|]. split; [|discriminate].
  change (tasks (toggleTask (Task.id newer) s2))
    with (map (fun t => if JSString.eqb (Task.id t) (Task.id newer)
                        then Task.flip t else t) [newer; older]).
  cbn [map].
  change (Task.id older) with (Task.id newer).
  now rewrite eqb_refl.
Qed.

(** C7 at its failing input.  In the same list, [deleteTask] on the id of
    the first task removes every entry whose id matches: both tasks go, and
    the list loses two entries. *)
Theorem deleteTask_duplicate_ids :
  let now := 1700000000000%float in
  let r1 := 0.5%float in
  let r2 := 0x1.00002p-1%float in
  let s1 := addTask Number_toString now r1 (setText (js "a") initial) in
  let s2 := addTask Number_toString now r2 (setText (js "b") s1) in
  let newer := Task.mk (newId Number_toString now r2) (js "b") false in
  let older := Task.mk (newId Number_toString now r1) (js "a") false in
  tasks s2 = [newer; older] /\
  older <> newer /\
  tasks (deleteTask (Task.id newer) s2) = [] /\
  List.length (tasks s2) = 2 + List.length (tasks (deleteTask (Task.id newer) s2)).
Proof.
  intros now r1 r2 s1 s2 newer older.
  assert (E : tasks (deleteTask (Task.id newer) s2) = []).
  { change (tasks (deleteTask (Task.id newer) s2))
      with (List.filter (fun t => negb (JSString.eqb (Task.id t) (Task.id newer)))
                        [newer; older]).
    cbn [List.filter].
    change (Task.id older) with (Task.id newer).
    now rewrite eqb_refl. }
  split; [reflexivity|]. split; [discriminate|]. split; [exact E|].
  now rewrite E.
Qed.

End Ids.

(** ** Worked examples *)

Lemma trim_examples :
  JSString.trim (js "  New Title  ") = js "New Title" /\
  JSString.trim (js "   ") = JSString.empty /\
  JSString.trim JSString.empty = JSString.empty /\
  JSString.trim (js "a  b") = js "a  b".
Proof. repeat split. Qed.

Lemma parse_examples :
  JSON.parse (js "[]") = Some (JSON.VArray []) /\
  JSON.parse (js " [ true , false , null ] ")
    = Some (JSON.VArray [JSON.VBool true; JSON.VBool false; JSON.VNull]) /\
  JSON.parse (jsq "{'k':[{'n':-1.5e3}],'k':'A\n'}")
    = Some (JSON.VObject
              [(js "k", JSON.VArray [JSON.VObject [(js "n", JSON.VNumber (js "-1.5e3"))]]);
               (js "k", JSON.VString [65%N; 10%N])]) /\
  JSON.parse (js "[1,]") = None /\
  JSON.parse (js "01") = None /\
  JSON.parse (js "[1] x") = None /\
  JSON.parse (jsq "{'a':1") = None /\
  JSON.parse (jsq "'abc") = None /\
  JSON.parse (js "undefined") = None.
Proof. repeat split. Qed.

Section Scenario.

Variable Number_toString : float -> jsstring.
Variables now1 random1 now2 random2 : float.

Let id1 := newId Number_toString now1 random1.
Let id2 := newId Number_toString now2 random2.

(** The scenario of the specification: two tasks are added to the empty
    list, the older one is toggled, and the filter is set to [completed]. *)
Lemma milk_and_dog :
  id1 <> id2 ->
  let s1 := addTask Number_toString now1 random1 (setText (js "Buy milk") initial) in
  let s2 := addTask Number_toString now2 random2 (setText (js "Walk dog") s1) in
  let s3 := toggleTask id1 s2 in
  let s4 := setFilter Filter.completed s3 in
  map Task.title (tasks s2) = [js "Walk dog"; js "Buy milk"] /\
  total s3 = 2 /\ completed s3 = 1 /\
  filteredTasks s4 = [Task.mk id1 (js "Buy milk") true].
Proof.
  intros Hne s1 s2 s3 s4.
  assert (E2 : JSString.eqb id2 id1 = false) by (apply eqb_neq; congruence).
  assert (E1 : JSString.eqb id1 id1 = true) by apply eqb_refl.
  assert (T : tasks s3 = [Task.mk id2 (js "Walk dog") false;
                          Task.mk id1 (js "Buy milk") true]).
  { change (tasks s3) with
      (map (fun t => if JSString.eqb (Task.id t) id1 then Task.flip t else t)
           [Task.mk id2 (js "Walk dog") false; Task.mk id1 (js "Buy milk") false]).
    cbn [map Task.id]. now rewrite E1, E2. }
  split; [reflexivity|].
  unfold total, completed, filteredTasks, s4, setFilter. cbn [tasks filter].
  rewrite T. repeat split.
Qed.

End Scenario.

(** * Further properties of the screen *)

(** ** What is saved can be loaded *)

Lemma hex_digit_hex_char (d : N) : (d < 16)%N -> JSON.hex_digit (hex_char d) = Some d.
Proof.
  intros H.
  assert (E : (d = 0 \/ d = 1 \/ d = 2 \/ d = 3 \/ d = 4 \/ d = 5 \/ d = 6 \/ d = 7 \/
               d = 8 \/ d = 9 \/ d = 10 \/ d = 11 \/ d = 12 \/ d = 13 \/ d = 14 \/
               d = 15)%N) by lia.
  repeat (destruct E as [->|E]; [reflexivity|]). now subst.
Qed.

Lemma hex4_unicode_escape (c : N) :
  (c < 65536)%N ->
  JSON.hex4 (hex_char (c / 4096)) (hex_char ((c / 256) mod 16))
            (hex_char ((c / 16) mod 16)) (hex_char (c mod 16)) = Some c.
Proof.
  intros H. unfold JSON.hex4.
  rewrite !hex_digit_hex_char.
  - f_equal.
    assert (E1 : (c = 16 * (c / 16) + c mod 16)%N)
      by (apply N.div_mod; discriminate).
    assert (E2 : (c / 16 = 16 * (c / 256) + (c / 16) mod 16)%N).
    { replace (c / 256)%N with (c / 16 / 16)%N by apply N.Div0.div_div.
      apply N.div_mod. discriminate. }
    assert (E3 : (c / 256 = 16 * (c / 4096) + (c / 256) mod 16)%N).
    { replace (c / 4096)%N with (c / 256 / 16)%N by apply N.Div0.div_div.
      apply N.div_mod. discriminate. }
    lia.
  - apply N.mod_lt. discriminate.
  - apply N.mod_lt. discriminate.
  - apply N.mod_lt. discriminate.
  - apply N.Div0.div_lt_upper_bound. exact H.
Qed.

Lemma scan_string_raw (c : N) (acc : list N) (r : jsstring) :
  N.eqb c 34 = false -> N.eqb c 92 = false -> N.ltb c 32 = false ->
  JSON.scan (JSON.InString acc) (c :: r) = JSON.scan (JSON.InString (c :: acc)) r.
Proof.
  intros H1 H2 H3.
  change (JSON.scan (JSON.InString acc) (c :: r)) with
    (if N.eqb c 34 then JSON.emit (JSON.TString (rev acc)) (JSON.scan JSON.Idle r)
     else if N.eqb c 92 then
       match r with
       | [] => None
       | e :: r' =>
           if N.eqb e 117 then
             match r' with
             | h1 :: h2 :: h3 :: h4 :: r'' =>
                 match JSON.hex4 h1 h2 h3 h4 with
                 | Some u => JSON.scan (JSON.InString (u :: acc)) r''
                 | None => None
                 end
             | _ => None
             end
           else match JSON.escape e with
                | Some u => JSON.scan (JSON.InString (u :: acc)) r'
                | None => None
                end
       end
     else if N.ltb c 32 then None
     else JSON.scan (JSON.InString (c :: acc)) r).
  now rewrite H1, H2, H3.
Qed.

Lemma scan_string_unicode (c : N) (acc : list N) (r : jsstring) :
  (c < 65536)%N ->
  JSON.scan (JSON.InString acc) (unicode_escape c ++ r)
  = JSON.scan (JSON.InString (c :: acc)) r.
Proof.
  intros H.
  change (JSON.scan (JSON.InString acc) (unicode_escape c ++ r)) with
    (match JSON.hex4 (hex_char (c / 4096)) (hex_char ((c / 256) mod 16))
                     (hex_char ((c / 16) mod 16)) (hex_char (c mod 16)) with
     | Some u => JSON.scan (JSON.InString (u :: acc)) r
     | None => None
     end).
  now rewrite hex4_unicode_escape.
Qed.

Lemma surrogate_bound (c : N) :
  is_high_surrogate c = true \/ is_low_surrogate c = true -> (c < 65536)%N.
Proof.
  unfold is_high_surrogate, is_low_surrogate.
  intros [H|H]; apply andb_true_iff in H as [_ H]; apply N.leb_le in H; lia.
Qed.

Lemma surrogate_raw (c : N) :
  is_high_surrogate c = true \/ is_low_surrogate c = true ->
  N.eqb c 34 = false /\ N.eqb c 92 = false /\ N.ltb c 32 = false.
Proof.
  unfold is_high_surrogate, is_low_surrogate.
  intros [H|H]; apply andb_true_iff in H as [H _]; apply N.leb_le in H;
    (split; [|split]); first [apply N.eqb_neq | apply N.ltb_ge]; lia.
Qed.

(** The scanner reads a quoted string back, whatever follows the closing
    quote. *)
Lemma scan_quote_chars (n : nat) :
  forall (s : jsstring) (acc : list N) (rest : jsstring),
    List.length s <= n ->
    JSON.scan (JSON.InString acc) (quote_chars s ++ 34%N :: rest)
    = JSON.emit (JSON.TString (rev acc ++ s)) (JSON.scan JSON.Idle rest).
Proof.
  induction n as [|n IH]; intros s acc rest Hlen.
  - destruct s; [|simpl in Hlen; lia]. simpl. now rewrite app_nil_r.
  - destruct s as [|c r]; [simpl; now rewrite app_nil_r|].
    simpl in Hlen. assert (Hr : List.length r <= n) by lia.
    assert (Hacc : forall u, rev (u :: acc) ++ r = rev acc ++ u :: r).
    { intros u. simpl. now rewrite <- app_assoc. }
    cbn [quote_chars].
    destruct (N.eqb c 8) eqn:E8.
    { apply N.eqb_eq in E8. subst c. rewrite <- Hacc. apply (IH r (8%N :: acc) rest Hr). }
    destruct (N.eqb c 9) eqn:E9.
    { apply N.eqb_eq in E9. subst c. rewrite <- Hacc. apply (IH r (9%N :: acc) rest Hr). }
    destruct (N.eqb c 10) eqn:E10.
    { apply N.eqb_eq in E10. subst c. rewrite <- Hacc. apply (IH r (10%N :: acc) rest Hr). }
    destruct (N.eqb c 12) eqn:E12.
    { apply N.eqb_eq in E12. subst c. rewrite <- Hacc. apply (IH r (12%N :: acc) rest Hr). }
    destruct (N.eqb c 13) eqn:E13.
    { apply N.eqb_eq in E13. subst c. rewrite <- Hacc. apply (IH r (13%N :: acc) rest Hr). }
    destruct (N.eqb c 34) eqn:E34.
    { apply N.eqb_eq in E34. subst c. rewrite <- Hacc. apply (IH r (34%N :: acc) rest Hr). }
    destruct (N.eqb c 92) eqn:E92.
    { apply N.eqb_eq in E92. subst c. rewrite <- Hacc. apply (IH r (92%N :: acc) rest Hr). }
    destruct (N.ltb c 32) eqn:E32.
    { rewrite <- app_assoc, scan_string_unicode, <- Hacc.
      - apply IH, Hr.
      - apply N.ltb_lt in E32. lia. }
    destruct (is_high_surrogate c) eqn:Eh.
    { destruct r as [|d r'].
      - rewrite scan_string_unicode by (apply surrogate_bound; now left).
        reflexivity.
      - destruct (is_low_surrogate d) eqn:El.
        + destruct (surrogate_raw d (or_intror El)) as (D1 & D2 & D3).
          cbn [app].
          rewrite scan_string_raw by assumption.
          rewrite scan_string_raw by assumption.
          simpl in Hr.
          rewrite IH by lia.
          simpl. now rewrite <- !app_assoc.
        + rewrite <- app_assoc, scan_string_unicode, <- Hacc
            by (apply surrogate_bound; now left).
          apply IH, Hr. }
    destruct (is_low_surrogate c) eqn:El.
    { rewrite <- app_assoc, scan_string_unicode, <- Hacc
        by (apply surrogate_bound; now right).
      apply IH, Hr. }
    cbn [app]. rewrite scan_string_raw by assumption.
    rewrite <- Hacc. apply IH, Hr.
Qed.

Lemma scan_quote (s rest : jsstring) :
  JSON.scan JSON.Idle (quote s ++ rest)
  = JSON.emit (JSON.TString s) (JSON.scan JSON.Idle rest).
Proof.
  unfold quote. cbn [app]. rewrite <- app_assoc. cbn [app].
  change (JSON.scan JSON.Idle (34%N :: quote_chars s ++ 34%N :: rest))
    with (JSON.scan (JSON.InString []) (quote_chars s ++ 34%N :: rest)).
  apply (@scan_quote_chars (List.length s) s [] rest (le_n _)).
Qed.

Lemma scan_task (t : Task.t) (rest : jsstring) :
  JSON.scan JSON.Idle (stringify_task t ++ rest)
  = option_map (app (task_tokens t)) (JSON.scan JSON.Idle rest).
Proof.
  unfold stringify_task. rewrite <- !app_assoc.
  change (JSON.scan JSON.Idle (jsq "{'id':" ++ ?x))
    with (JSON.emit JSON.LBrace (JSON.emit (JSON.TString (js "id"))
            (JSON.emit JSON.Colon (JSON.scan JSON.Idle x)))).
  rewrite scan_quote.
  change (JSON.scan JSON.Idle (jsq ",'title':" ++ ?x))
    with (JSON.emit JSON.Comma (JSON.emit (JSON.TString (js "title"))
            (JSON.emit JSON.Colon (JSON.scan JSON.Idle x)))).
  rewrite scan_quote.
  change (JSON.scan JSON.Idle (jsq ",'completed':" ++ ?x))
    with (JSON.emit JSON.Comma (JSON.emit (JSON.TString (js "completed"))
            (JSON.emit JSON.Colon (JSON.scan JSON.Idle x)))).
  unfold task_tokens.
  destruct (Task.completed t).
  - change (JSON.scan JSON.Idle (js "true" ++ js "}" ++ rest))
      with (JSON.emit JSON.TTrue (JSON.emit JSON.RBrace (JSON.scan JSON.Idle rest))).
    destruct (JSON.scan JSON.Idle rest); reflexivity.
  - change (JSON.scan JSON.Idle (js "false" ++ js "}" ++ rest))
      with (JSON.emit JSON.TFalse (JSON.emit JSON.RBrace (JSON.scan JSON.Idle rest))).
    destruct (JSON.scan JSON.Idle rest); reflexivity.
Qed.

Lemma scan_more (l : list Task.t) (rest : jsstring) :
  JSON.scan JSON.Idle (stringify_more l ++ rest)
  = option_map (app (more_tokens l)) (JSON.scan JSON.Idle rest).
Proof.
  induction l as [|t l IH]; cbn [stringify_more].
  - cbn [app]. destruct (JSON.scan JSON.Idle rest); reflexivity.
  - rewrite <- !app_assoc.
    change (JSON.scan JSON.Idle (js "," ++ ?x))
      with (JSON.emit JSON.Comma (JSON.scan JSON.Idle x)).
    rewrite scan_task, IH. cbn [more_tokens].
    destruct (JSON.scan JSON.Idle rest); reflexivity.
Qed.

Lemma scan_tasks (l : list Task.t) :
  JSON.scan JSON.Idle (stringify_tasks l)
  = Some match l with
         | [] => [JSON.LBracket; JSON.RBracket]
         | t :: l' => JSON.LBracket :: task_tokens t ++ more_tokens l' ++ [JSON.RBracket]
         end.
Proof.
  destruct l as [|t l]; [reflexivity|].
  unfold stringify_tasks.
  change (JSON.scan JSON.Idle (js "[" ++ ?x))
    with (JSON.emit JSON.LBracket (JSON.scan JSON.Idle x)).
  now rewrite scan_task, scan_more.
Qed.

Lemma run_task (e : JSON.expect) (t : Task.t) (acc : list JSON.value)
               (stack : list JSON.frame) (ts : list JSON.token) :
  e = JSON.EValue \/ e = JSON.EValueOrClose ->
  JSON.run e (JSON.FArray acc :: stack) (task_tokens t ++ ts)
  = JSON.run JSON.ECommaOrClose (JSON.FArray (value_of_task t :: acc) :: stack) ts.
Proof.
  intros [-> | ->]; unfold task_tokens; destruct (Task.completed t) eqn:E;
    unfold value_of_task; rewrite E; reflexivity.
Qed.

Lemma run_more (l : list Task.t) (acc : list JSON.value) :
  JSON.run JSON.ECommaOrClose [JSON.FArray acc] (more_tokens l ++ [JSON.RBracket])
  = Some (JSON.VArray (rev acc ++ map value_of_task l)).
Proof.
  revert acc. induction l as [|t l IH]; intros acc.
  - simpl. now rewrite app_nil_r.
  - cbn [more_tokens]. rewrite <- app_comm_cons.
    change (JSON.run JSON.ECommaOrClose [JSON.FArray acc]
              (JSON.Comma :: (task_tokens t ++ more_tokens l) ++ [JSON.RBracket]))
      with (JSON.run JSON.EValue [JSON.FArray acc]
              ((task_tokens t ++ more_tokens l) ++ [JSON.RBracket])).
    rewrite <- app_assoc, run_task by now left.
    rewrite IH. simpl. now rewrite <- app_assoc.
Qed.

Lemma parse_stringify_tasks (l : list Task.t) :
  JSON.parse (stringify_tasks l) = Some (JSON.VArray (map value_of_task l)).
Proof.
  unfold JSON.parse. rewrite scan_tasks. destruct l as [|t l]; [reflexivity|].
  change (JSON.run JSON.EValue [] (JSON.LBracket :: ?x))
    with (JSON.run JSON.EValueOrClose [JSON.FArray []] x).
  rewrite run_task by now right. apply run_more.
Qed.

Lemma task_of_value_of_task (t : Task.t) : task_of_value (value_of_task t) = Some t.
Proof. now destruct t. Qed.

Lemma tasks_of_values_of_tasks (l : list Task.t) :
  tasks_of_values (map value_of_task l) = Some l.
Proof.
  induction l as [|t l IH]; [reflexivity|].
  cbn [map tasks_of_values]. now rewrite task_of_value_of_task, IH.
Qed.

(** X1.  What the save effect writes, the load effect reads back: loading
    the text saved for a state puts exactly that state's task list, entry
    by entry and in order, into the [tasks] cell, for every list of tasks
    (whatever code units its ids and titles hold), and leaves the other
    cells of the loading screen as they were. *)
Theorem save_load_round_trip (saved st : State) :
  load (Resolved (Some (saveEffect saved))) st
  = Ready (setTasks (fun _ => tasks saved) st).
Proof.
  apply load_conforming with (v := JSON.VArray (map value_of_task (tasks saved))).
  - apply parse_stringify_tasks.
  - apply tasks_of_values_of_tasks.
Qed.

(** ** Titles stay trimmed *)

Lemma trimStart_head (s : jsstring) (c : N) (r : jsstring) :
  JSString.trimStart s = c :: r -> JSString.is_white_space c = false.
Proof.
  induction s as [|a s IH]; simpl; [discriminate|].
  destruct (JSString.is_white_space a) eqn:E; [exact IH|].
  intros H. injection H as -> _. exact E.
Qed.

Lemma trimStart_fixed (c : N) (r : jsstring) :
  JSString.is_white_space c = false -> JSString.trimStart (c :: r) = c :: r.
Proof. intros H. simpl. now rewrite H. Qed.

Lemma trimStart_idem (s : jsstring) :
  JSString.trimStart (JSString.trimStart s) = JSString.trimStart s.
Proof.
  destruct (JSString.trimStart s) as [|c r] eqn:E; [reflexivity|].
  apply trimStart_fixed. exact (@trimStart_head s c r E).
Qed.

Lemma trimStart_app (a b : jsstring) (c : N) :
  JSString.is_white_space c = false ->
  JSString.trimStart (a ++ c :: b) = JSString.trimStart a ++ c :: b.
Proof.
  intros H. induction a as [|x a IH]; simpl.
  - now rewrite H.
  - destruct (JSString.is_white_space x); [exact IH | reflexivity].
Qed.

Lemma trimEnd_head (c : N) (r : jsstring) :
  JSString.is_white_space c = false ->
  exists r', JSString.trimEnd (c :: r) = c :: r'.
Proof.
  intros H. unfold JSString.trimEnd. simpl rev.
  rewrite trimStart_app by exact H. rewrite rev_app_distr. simpl.
  now eexists.
Qed.

Lemma trimEnd_idem (s : jsstring) :
  JSString.trimEnd (JSString.trimEnd s) = JSString.trimEnd s.
Proof.
  unfold JSString.trimEnd. now rewrite rev_involutive, trimStart_idem.
Qed.

(** [trim] leaves nothing to trim. *)
Lemma trim_idem (s : jsstring) : JSString.trim (JSString.trim s) = JSString.trim s.
Proof.
  unfold JSString.trim.
  destruct (JSString.trimStart s) as [|c r] eqn:E; [reflexivity|].
  pose proof (@trimStart_head s c r E) as Hc.
  destruct (@trimEnd_head c r Hc) as [r' Hr'].
  transitivity (JSString.trimEnd (JSString.trimEnd (c :: r)));
    [|apply trimEnd_idem].
  f_equal.
  assert (G : forall w, w = c :: r' -> JSString.trimStart w = w)
    by (intros w ->; now apply trimStart_fixed).
  apply G. exact Hr'.
Qed.

Section Invariants.

Variable Number_toString : float -> jsstring.

Lemma handle_titles (e : Event) (st : State) :
  Forall title_trimmed (tasks st) ->
  Forall title_trimmed (tasks (handle Number_toString e st)).
Proof.
  intros H. destruct e as [s|now random|f|item now lastTap|item pressed|s|]; simpl;
    try exact H.
  - unfold addTask.
    destruct (JSString.is_empty (JSString.trim (text st))) eqn:E; [exact H|].
    simpl. constructor; [|exact H]. split; simpl.
    + now apply is_empty_false.
    + apply trim_idem.
  - destruct (now - lastTap <? 250)%float; simpl; [exact H|].
    apply Forall_map. eapply Forall_impl; [|exact H].
    intros t Ht. now destruct (JSString.eqb (Task.id t) (Task.id item)).
  - destruct pressed as [[|]|]; simpl; try exact H.
    apply Forall_forall. intros t Ht. apply filter_In in Ht as [Ht _].
    revert t Ht. now apply Forall_forall.
  - unfold commitEditing.
    destruct (no_editingId (editingId st)); [exact H|].
    destruct (JSString.is_empty (JSString.trim (editingText st))) eqn:E; simpl;
      [exact H|].
    apply Forall_map. eapply Forall_impl; [|exact H].
    intros t Ht. destruct (is_editingId (editingId st) (Task.id t)); [|exact Ht].
    split; simpl.
    + now apply is_empty_false.
    + apply trim_idem.
Qed.

(** X2.  Whatever the user does on the screen, every task in the list has
    a title that is not empty and carries no white space at either end,
    provided the list it started from had: [addTask] and [commitEditing]
    write trimmed, non-empty titles only, and no other callback writes a
    title.  This holds in particular from the empty list the component
    mounts with. *)
Theorem titles_stay_trimmed (es : list Event) :
  (forall st,
      Forall title_trimmed (tasks st) ->
      Forall title_trimmed (tasks (handleAll Number_toString es st))) /\
  Forall title_trimmed (tasks (handleAll Number_toString es initial)).
Proof.
  unfold handleAll.
  assert (G : forall st, Forall title_trimmed (tasks st) ->
                         Forall title_trimmed
                           (tasks (fold_left (fun s e => handle Number_toString e s) es st))).
  { induction es as [|e es IH]; intros st H; simpl; [exact H|].
    apply IH. now apply handle_titles. }
  split; [exact G|]. apply G. constructor.
Qed.

End Invariants.

Lemma titles_stay_trimmed_witness :
  let sample := fun _ : float => js "1700000000000.5" in
  let milk := Task.mk (js "1") (js "Buy milk") false in
  let st := setTasks (fun _ => [milk]) initial in
  Forall title_trimmed
    (tasks (handleAll sample
              [InputChange (js "  Walk dog "); InputSubmit 1700000000000 0.5;
               RowPress milk 1700000000100 0; RowPress milk 1700000000200 1700000000100;
               EditorChange (js " Buy bread  "); EditorSubmit]
              st)).
Proof.
  intros sample milk st.
  apply (proj1 (titles_stay_trimmed sample _)).
  repeat constructor. discriminate.
Defined.

(** ** Ids under the events *)

Lemma ids_toggle (id : jsstring) (l : list Task.t) :
  map Task.id
      (map (fun t => if JSString.eqb (Task.id t) id then Task.flip t else t) l)
  = map Task.id l.
Proof.
  rewrite map_map. apply map_ext. intros t.
  now destruct (JSString.eqb (Task.id t) id).
Qed.

Lemma ids_retitle (i : option jsstring) (newTitle : jsstring) (l : list Task.t) :
  map Task.id
      (map (fun t => if is_editingId i (Task.id t)
                     then Task.retitle newTitle t else t) l)
  = map Task.id l.
Proof.
  rewrite map_map. apply map_ext. intros t.
  now destruct (is_editingId i (Task.id t)).
Qed.

Lemma ids_unique_filter (p : Task.t -> bool) (l : list Task.t) :
  ids_unique l -> ids_unique (List.filter p l).
Proof.
  unfold ids_unique. induction l as [|t l IH]; simpl; intros H; [exact H|].
  apply NoDup_cons_iff in H as [Hnot Hl].
  destruct (p t); simpl; [|now apply IH].
  constructor; [|now apply IH].
  intros Hin. apply Hnot. apply in_map_iff in Hin as (x & Ex & Hx).
  apply filter_In in Hx as [Hx _]. apply in_map_iff. now exists x.
Qed.

Section Ids_events.

Variable Number_toString : float -> jsstring.

(** X3.  Only adding and deleting change which ids the list holds: a press
    on a row (toggle or start of an edit), typing, submitting an edit,
    changing the filter and a cancelled or dismissed alert all leave the
    sequence of ids, hence the number and the order of the tasks, as it
    was; a confirmed deletion keeps the other ids in their order, and a
    submit of the header input adds at most one id, at the head. *)
Theorem ids_stable (e : Event) (st : State) :
  match e with
  | InputSubmit now random =>
      map Task.id (tasks (handle Number_toString e st)) = map Task.id (tasks st) \/
      map Task.id (tasks (handle Number_toString e st))
      = newId Number_toString now random :: map Task.id (tasks st)
  | RowLongPress item (Some Eliminar) =>
      map Task.id (tasks (handle Number_toString e st))
      = List.filter (fun i => negb (JSString.eqb i (Task.id item)))
                    (map Task.id (tasks st))
  | _ => map Task.id (tasks (handle Number_toString e st)) = map Task.id (tasks st)
  end.
Proof.
  destruct e as [s|now random|f|item now lastTap|item pressed|s|]; simpl;
    try reflexivity.
  - unfold addTask. destruct (JSString.is_empty (JSString.trim (text st)));
      [now left | now right].
  - destruct (now - lastTap <? 250)%float; simpl; [reflexivity | apply ids_toggle].
  - destruct pressed as [[|]|]; simpl; try reflexivity.
    induction (tasks st) as [|t l IH]; simpl; [reflexivity|].
    destruct (JSString.eqb (Task.id t) (Task.id item)); simpl; now rewrite IH.
  - unfold commitEditing. destruct (no_editingId (editingId st)); [reflexivity|].
    destruct (JSString.is_empty (JSString.trim (editingText st))); simpl;
      [reflexivity | apply ids_retitle].
Qed.

(** X4.  Every event keeps the ids unique, provided that when it is a
    submit of the header input the id drawn for the new task is not yet in
    the list: toggling, editing and filtering keep the ids, deleting removes
    some, and adding puts the drawn id at the head. *)
Theorem ids_unique_kept (e : Event) (st : State) :
  ids_unique (tasks st) ->
  (forall now random,
      e = InputSubmit now random ->
      ~ In (newId Number_toString now random) (map Task.id (tasks st))) ->
  ids_unique (tasks (handle Number_toString e st)).
Proof.
  intros U Hfresh. unfold ids_unique.
  pose proof (ids_stable e st) as S.
  destruct e as [s|now random|f|item now lastTap|item pressed|s|];
    try (rewrite S; exact U).
  - destruct S as [-> | ->]; [exact U|].
    constructor; [now apply Hfresh | exact U].
  - destruct pressed as [[|]|]; try (rewrite S; exact U).
    simpl. now apply ids_unique_filter.
Qed.

End Ids_events.

Lemma ids_unique_kept_witness :
  let sample := fun _ : float => js "1700000000000.5" in
  let milk := Task.mk (js "1") (js "Buy milk") false in
  let st := setText (js "Walk dog") (setTasks (fun _ => [milk]) initial) in
  ids_unique (tasks (handle sample (InputSubmit 1700000000000 0.5) st)).
Proof.
  intros sample milk st.
  apply (@ids_unique_kept sample (InputSubmit 1700000000000 0.5) st).
  - unfold ids_unique. simpl. repeat constructor. intros [].
  - intros now random _. simpl. intros [H|[]]. discriminate H.
Defined.

(** ** How the callbacks compose *)

Lemma flip_id (t : Task.t) : Task.id (Task.flip t) = Task.id t.
Proof. reflexivity. Qed.

Lemma filter_twice {A} (p q : A -> bool) (l : list A) :
  List.filter p (List.filter q l) = List.filter q (List.filter p l).
Proof.
  induction l as [|a l IH]; simpl; [reflexivity|].
  destruct (p a) eqn:P, (q a) eqn:Q; simpl; rewrite ?P, ?Q, IH; reflexivity.
Qed.

Lemma filter_same {A} (p : A -> bool) (l : list A) :
  List.filter p (List.filter p l) = List.filter p l.
Proof.
  apply filter_all. intros x Hx. now apply filter_In in Hx.
Qed.

Lemma filter_of_map {A} (f : A -> A) (p : A -> bool) (l : list A) :
  (forall x, p (f x) = p x) ->
  List.filter p (map f l) = map f (List.filter p l).
Proof.
  intros H. induction l as [|a l IH]; simpl; [reflexivity|].
  rewrite H. destruct (p a); simpl; now rewrite IH.
Qed.

(** X5.  Toggles and deletions can be applied in any order: two toggles
    commute, two deletions commute, a toggle and a deletion commute, and
    deleting the same id a second time changes nothing. *)
Theorem toggle_delete_commute (a b : jsstring) (st : State) :
  toggleTask a (toggleTask b st) = toggleTask b (toggleTask a st) /\
  deleteTask a (deleteTask b st) = deleteTask b (deleteTask a st) /\
  deleteTask a (toggleTask b st) = toggleTask b (deleteTask a st) /\
  deleteTask a (deleteTask a st) = deleteTask a st.
Proof.
  unfold toggleTask, deleteTask. repeat split; same_state st.
  - rewrite !map_map. apply map_ext. intros t.
    destruct (JSString.eqb (Task.id t) a) eqn:A, (JSString.eqb (Task.id t) b) eqn:B;
      rewrite ?flip_id, ?A, ?B; reflexivity.
  - apply filter_twice.
  - apply filter_of_map. intros t.
    now destruct (JSString.eqb (Task.id t) b).
  - apply filter_same.
Qed.

(** ** The counters after a change *)

Lemma count_completed_app (l1 l2 : list Task.t) :
  count_completed (l1 ++ l2) = count_completed l1 + count_completed l2.
Proof.
  induction l1 as [|t l IH]; simpl; [reflexivity|]. rewrite IH. lia.
Qed.

Section Counters.

Variable Number_toString : float -> jsstring.

(** X6.  A successful [addTask] raises [total] by one and leaves
    [completed] as it was; with unique ids, toggling a task of the list
    keeps [total] and moves [completed] by exactly one, up when the task was
    active and down when it was completed, and deleting it lowers [total]
    by one and [completed] by one exactly when the task was completed. *)
Theorem counters_after (st : State) :
  (forall now random,
      JSString.trim (text st) <> JSString.empty ->
      total (addTask Number_toString now random st) = S (total st) /\
      completed (addTask Number_toString now random st) = completed st) /\
  (forall t,
      ids_unique (tasks st) -> In t (tasks st) ->
      total (toggleTask (Task.id t) st) = total st /\
      completed (toggleTask (Task.id t) st) + (if Task.completed t then 1 else 0)
      = completed st + (if Task.completed t then 0 else 1)) /\
  (forall t,
      ids_unique (tasks st) -> In t (tasks st) ->
      S (total (deleteTask (Task.id t) st)) = total st /\
      completed (deleteTask (Task.id t) st) + (if Task.completed t then 1 else 0)
      = completed st).
Proof.
  unfold total, completed. split; [|split].
  - intros now random H. unfold addTask.
    apply is_empty_false in H. now rewrite H.
  - intros t U Hin. apply in_split in Hin as (l1 & l2 & E). rewrite E in U.
    unfold toggleTask. simpl. split; [apply length_map|].
    rewrite E, (toggle_list_unique _ _ _ U).
    rewrite !count_completed_filter, !count_completed_app. simpl.
    destruct (Task.completed t); simpl; lia.
  - intros t U Hin. apply in_split in Hin as (l1 & l2 & E). rewrite E in U.
    unfold deleteTask. simpl. rewrite E, (delete_list_unique _ _ _ U). split.
    + rewrite !length_app. simpl. lia.
    + rewrite !count_completed_filter, !count_completed_app. simpl.
      destruct (Task.completed t); simpl; lia.
Qed.

End Counters.

Lemma counters_after_witness :
  let sample := fun _ : float => js "1700000000000.5" in
  let milk := Task.mk (js "1") (js "Buy milk") false in
  let dog := Task.mk (js "2") (js "Walk dog") true in
  let st := setText (js "Call mum") (setTasks (fun _ => [dog; milk]) initial) in
  total (addTask sample 1700000000000 0.5 st) = 3 /\
  completed (toggleTask (js "1") st) + 0 = completed st + 1 /\
  completed (deleteTask (js "2") st) + 1 = completed st.
Proof.
  intros sample milk dog st.
  assert (U : ids_unique (tasks st)).
  { unfold ids_unique. simpl. repeat constructor; simpl; intuition discriminate. }
  destruct (counters_after sample st) as (Hadd & Htog & Hdel).
  split; [|split].
  - refine (proj1 (Hadd 1700000000000%float 0.5%float _)). vm_compute. discriminate.
  - refine (proj2 (Htog milk U _)). simpl. right. left. reflexivity.
  - refine (proj2 (Hdel dog U _)). simpl. left. reflexivity.
Defined.

(** ** Edit sessions *)

(** X7.  Abandoning an edit restores the screen.  From a state with no
    session and an empty draft, opening the editor on a task, typing
    anything and then cancelling gives back the very same state; so does
    submitting when the task's id is not empty and the draft typed is empty
    or white space only. *)
Theorem edit_abandoned (task : Task.t) (draft : jsstring) (st : State) :
  session_closed st -> editingText st = JSString.empty ->
  cancelEditing (setEditingText draft (startEditing task st)) = st /\
  (Task.id task <> JSString.empty -> JSString.trim draft = JSString.empty ->
   commitEditing (setEditingText draft (startEditing task st)) = st).
Proof.
  unfold session_closed. intros Hc He. destruct st as [ts tx fl ei et].
  simpl in Hc, He. subst ei et. split; [reflexivity|].
  intros Hid Hd. unfold commitEditing. simpl.
  apply is_empty_false in Hid. rewrite Hid, Hd. reflexivity.
Qed.

Lemma edit_abandoned_witness :
  let milk := Task.mk (js "1") (js "Buy milk") false in
  let st := setTasks (fun _ => [milk]) initial in
  cancelEditing (setEditingText (js "Buy") (startEditing milk st)) = st /\
  commitEditing (setEditingText (js "   ") (startEditing milk st)) = st.
Proof.
  intros milk st. split.
  - refine (proj1 (@edit_abandoned milk (js "Buy") st _ _)); reflexivity.
  - refine (proj2 (@edit_abandoned milk (js "   ") st _ _) _ _);
      try reflexivity. discriminate.
Defined.

(** X8.  Submitting twice is submitting once: the row's editor calls
    [commitEditing] both on submit and on blur, and the second call finds
    what the first one left and changes nothing. *)
Theorem commitEditing_twice (st : State) :
  commitEditing (commitEditing st) = commitEditing st.
Proof.
  assert (D : commitEditing st = st \/ editingId (commitEditing st) = None).
  { unfold commitEditing. destruct (no_editingId (editingId st)); [now left|].
    right. now destruct (JSString.is_empty (JSString.trim (editingText st))). }
  destruct D as [D|D]; [now rewrite !D|].
  unfold commitEditing at 1. now rewrite D.
Qed.

Lemma no_match_retitle (eid newTitle : jsstring) (l : list Task.t) :
  map (fun t => if is_editingId (Some eid) (Task.id t)
                then Task.retitle newTitle t else t)
      (List.filter (fun t => negb (JSString.eqb (Task.id t) eid)) l)
  = List.filter (fun t => negb (JSString.eqb (Task.id t) eid)) l.
Proof.
  apply map_fixed. intros t Ht. apply filter_In in Ht as [_ Ht].
  simpl. apply negb_true_iff in Ht. now rewrite Ht.
Qed.

(** X9.  Deleting the task that is being edited does not close the
    session: the editor's id now names no task.  Submitting the edit then
    writes no task, whatever the draft and whatever the id; it closes the
    session when the id is not the empty string, and returns the state as
    it was, the session still open, when it is. *)
Theorem delete_while_editing (eid : jsstring) (st : State) :
  session_on eid st ->
  session_on eid (deleteTask eid st) /\
  editingText (deleteTask eid st) = editingText st /\
  (forall t, In t (tasks (deleteTask eid st)) -> Task.id t <> eid) /\
  tasks (commitEditing (deleteTask eid st)) = tasks (deleteTask eid st) /\
  (eid <> JSString.empty -> session_closed (commitEditing (deleteTask eid st))) /\
  (eid = JSString.empty ->
   commitEditing (deleteTask eid st) = deleteTask eid st /\
   session_on eid (commitEditing (deleteTask eid st))).
Proof.
  unfold session_on, session_closed. intros Hs.
  split; [exact Hs|]. split; [reflexivity|]. split.
  { intros t Ht. simpl in Ht. apply filter_In in Ht as [_ Ht].
    apply negb_true_iff in Ht. now apply eqb_neq. }
  unfold commitEditing. simpl. rewrite Hs. simpl.
  destruct (JSString.is_empty eid) eqn:E.
  - apply is_empty_true in E.
    split; [reflexivity|]. split; [intros N; contradiction|].
    intros _. split; [reflexivity | exact Hs].
  - apply is_empty_false in E.
    split; [|split; [intros _ | intros N; contradiction]].
    + destruct (JSString.is_empty (JSString.trim (editingText st))); simpl;
        [reflexivity | apply no_match_retitle].
    + now destruct (JSString.is_empty (JSString.trim (editingText st))).
Qed.

Lemma delete_while_editing_witness :
  let milk := Task.mk (js "1") (js "Buy milk") false in
  let st := setEditingText (js "Buy bread")
              (startEditing milk (setTasks (fun _ => [milk]) initial)) in
  let blank := Task.mk JSString.empty (js "a") false in
  let st0 := setEditingText (js "b")
               (startEditing blank (setTasks (fun _ => [blank]) initial)) in
  (session_on (js "1") (deleteTask (js "1") st) /\
   tasks (commitEditing (deleteTask (js "1") st)) = [] /\
   session_closed (commitEditing (deleteTask (js "1") st))) /\
  (tasks (commitEditing (deleteTask JSString.empty st0)) = [] /\
   session_on JSString.empty (commitEditing (deleteTask JSString.empty st0))).
Proof.
  intros milk st blank st0. split.
  - destruct (@delete_while_editing (js "1") st eq_refl) as (H1 & _ & _ & H4 & H5 & _).
    split; [exact H1|]. split; [exact H4|]. apply H5. discriminate.
  - destruct (@delete_while_editing JSString.empty st0 eq_refl)
      as (_ & _ & _ & H4 & _ & H6).
    split; [exact H4|]. exact (proj2 (H6 eq_refl)).
Defined.

(** ** The rows *)

Lemma filter_none {A} (p : A -> bool) (l : list A) :
  (forall x, In x l -> p x = false) -> List.filter p l = [].
Proof.
  induction l as [|a l IH]; simpl; intros H; [reflexivity|].
  rewrite (H a (or_introl eq_refl)). apply IH. intros; apply H; now right.
Qed.

Lemma editing_rows_le_1 (eid : jsstring) (l : list Task.t) :
  ids_unique l ->
  List.length (List.filter (fun t => JSString.eqb (Task.id t) eid) l) <= 1.
Proof.
  unfold ids_unique. induction l as [|t l IH]; simpl; intros H; [lia|].
  apply NoDup_cons_iff in H as [Hnot Hl].
  destruct (JSString.eqb (Task.id t) eid) eqn:E; [|now apply IH].
  apply eqb_eq in E. simpl.
  rewrite filter_none; [simpl; lia|].
  intros x Hx. apply eqb_neq. intros Ex. apply Hnot.
  rewrite E, <- Ex. now apply in_map.
Qed.

Lemma filteredTasks_unique (st : State) :
  ids_unique (tasks st) -> ids_unique (filteredTasks st).
Proof.
  intros U. unfold filteredTasks.
  destruct (filter st); [exact U | |]; now apply ids_unique_filter.
Qed.

Lemma editing_rows_of (item : Task.t) (l : list Task.t) :
  ids_unique l -> In item l ->
  List.filter (fun t => JSString.eqb (Task.id t) (Task.id item)) l = [item].
Proof.
  intros U Hin. apply in_split in Hin as (l1 & l2 & ->).
  pose proof (unique_around _ _ _ U) as Hother.
  rewrite filter_app. simpl. rewrite eqb_refl.
  rewrite (filter_none _ l1), (filter_none _ l2); [reflexivity | |].
  - intros x Hx. apply eqb_neq, Hother, in_or_app. now right.
  - intros x Hx. apply eqb_neq, Hother, in_or_app. now left.
Qed.

(** X10.  With unique ids at most one row of the visible list shows the
    inline editor; right after [startEditing] on a visible task it is the
    row of that task and no other. *)
Theorem one_row_edits (st : State) :
  ids_unique (tasks st) ->
  List.length (List.filter (isEditing st) (filteredTasks st)) <= 1 /\
  (forall item,
      In item (filteredTasks st) ->
      List.filter (isEditing (startEditing item st))
                  (filteredTasks (startEditing item st)) = [item]).
Proof.
  intros U. pose proof (filteredTasks_unique st U) as V. split.
  - unfold isEditing. destruct (editingId st) as [eid|]; simpl.
    + now apply editing_rows_le_1.
    + rewrite filter_none; [simpl; lia | reflexivity].
  - intros item Hin.
    change (filteredTasks (startEditing item st)) with (filteredTasks st).
    now apply editing_rows_of.
Qed.

Lemma one_row_edits_witness :
  let milk := Task.mk (js "1") (js "Buy milk") false in
  let dog := Task.mk (js "2") (js "Walk dog") true in
  let st := setTasks (fun _ => [dog; milk]) initial in
  List.filter (isEditing (startEditing milk st))
              (filteredTasks (startEditing milk st)) = [milk].
Proof.
  intros milk dog st.
  refine (proj2 (@one_row_edits st _) milk _).
  - unfold ids_unique. simpl. repeat constructor; simpl; intuition discriminate.
  - simpl. right. left. reflexivity.
Defined.

(** X11.  A double tap both toggles and edits.  With unique ids, a first
    press on the row of a task more than 250 ms after the previous press
    toggles the task; a second press less than 250 ms later, on the row as
    rendered before or after the toggle, opens the editor on it.  After the
    two presses the task sits where it was with its flag flipped, the
    session is open on its id with its title as the draft, and the ref holds
    the time of the second press. *)
Theorem double_tap (item item' : Task.t) (st : State) (last now1 now2 : float) :
  ids_unique (tasks st) -> In item (tasks st) ->
  Task.id item' = Task.id item -> Task.title item' = Task.title item ->
  (now1 - last <? 250)%float = false ->
  (now2 - now1 <? 250)%float = true ->
  let first :=
    handlePress now1 last (startEditing item) (toggleTask (Task.id item)) st in
  let second :=
    handlePress now2 (fst first) (startEditing item')
                (toggleTask (Task.id item')) (snd first) in
  snd first = toggleTask (Task.id item) st /\
  fst second = now2 /\
  (exists l1 l2,
      tasks st = l1 ++ item :: l2 /\
      tasks (snd second) = l1 ++ Task.flip item :: l2) /\
  session_on (Task.id item) (snd second) /\
  editingText (snd second) = Task.title item /\
  text (snd second) = text st /\
  filter (snd second) = filter st.
Proof.
  intros U Hin Hid Htitle H1 H2 first second.
  subst first second. unfold handlePress. cbn [fst snd].
  rewrite H1, H2. unfold session_on. simpl. rewrite Hid, Htitle.
  repeat split.
  apply in_split in Hin as (l1 & l2 & E). exists l1, l2. split; [exact E|].
  rewrite E in U |- *. now apply toggle_list_unique.
Qed.

Lemma double_tap_witness :
  let milk := Task.mk (js "1") (js "Buy milk") false in
  let st := setTasks (fun _ => [milk]) initial in
  let first :=
    handlePress 1700000000000 0 (startEditing milk) (toggleTask (js "1")) st in
  let second :=
    handlePress 1700000000100 (fst first) (startEditing (Task.flip milk))
                (toggleTask (js "1")) (snd first) in
  session_on (js "1") (snd second) /\ editingText (snd second) = js "Buy milk".
Proof.
  intros milk st first second.
  assert (U : ids_unique (tasks st)).
  { unfold ids_unique. simpl. repeat constructor. intros []. }
  assert (Hin : In milk (tasks st)) by (left; reflexivity).
  destruct (@double_tap milk (Task.flip milk) st 0%float 1700000000000%float
              1700000000100%float U Hin eq_refl eq_refl eq_refl eq_refl)
    as (_ & _ & _ & Hs & Ht & _).
  split; [exact Hs | exact Ht].
Defined.

(** ** The visible list after a change *)

Section Visible.

Variable Number_toString : float -> jsstring.

(** X12.  A task that was just added shows at the head of the visible list
    under the filters [all] and [active]; under [completed] it does not
    show at all, the visible list staying what it was. *)
Theorem added_task_visible (now random : float) (st : State) :
  JSString.trim (text st) <> JSString.empty ->
  let added := addTask Number_toString now random st in
  let newTask :=
    Task.mk (newId Number_toString now random) (JSString.trim (text st)) false in
  match filter st with
  | Filter.completed => filteredTasks added = filteredTasks st
  | Filter.all | Filter.active => filteredTasks added = newTask :: filteredTasks st
  end.
Proof.
  intros H added newTask. subst added newTask. unfold addTask.
  apply is_empty_false in H. rewrite H. unfold filteredTasks. simpl.
  destruct (filter st); reflexivity.
Qed.

End Visible.

Lemma added_task_visible_witness :
  let sample := fun _ : float => js "1700000000000.5" in
  let dog := Task.mk (js "2") (js "Walk dog") true in
  let st := setFilter Filter.completed
              (setText (js "Buy milk") (setTasks (fun _ => [dog]) initial)) in
  filteredTasks (addTask sample 1700000000000 0.5 st) = [dog].
Proof.
  intros sample dog st.
  refine (@added_task_visible sample 1700000000000%float 0.5%float st _).
  vm_compute. discriminate.
Defined.

(** X13.  Under the filter [active] or [completed], with unique ids,
    toggling a task that shows takes it out of the visible list and leaves
    the rows before and after it as they were. *)
Theorem toggled_task_leaves (t : Task.t) (st : State) :
  ids_unique (tasks st) -> filter st <> Filter.all -> In t (filteredTasks st) ->
  exists v1 v2,
    filteredTasks st = v1 ++ t :: v2 /\
    filteredTasks (toggleTask (Task.id t) st) = v1 ++ v2.
Proof.
  intros U Hf Hin.
  assert (Hl : In t (tasks st)).
  { unfold filteredTasks in Hin. destruct (filter st); [exact Hin | |];
      now apply filter_In in Hin. }
  apply in_split in Hl as (l1 & l2 & E). rewrite E in U.
  unfold filteredTasks in *. simpl. rewrite E in *.
  rewrite (toggle_list_unique _ _ _ U).
  destruct (filter st); [congruence | |];
    rewrite !filter_app in *; simpl in *.
  - destruct (Task.completed t) eqn:C; simpl in *.
    + apply in_app_or in Hin as [Hin|Hin]; apply filter_In in Hin as [Hin _];
        exfalso; refine (unique_around _ _ _ U t _ eq_refl);
        apply in_or_app; [now left | now right].
    + now eexists _, _.
  - destruct (Task.completed t) eqn:C; simpl in *.
    + now eexists _, _.
    + apply in_app_or in Hin as [Hin|Hin]; apply filter_In in Hin as [Hin _];
        exfalso; refine (unique_around _ _ _ U t _ eq_refl);
        apply in_or_app; [now left | now right].
Qed.

Lemma toggled_task_leaves_witness :
  let milk := Task.mk (js "1") (js "Buy milk") false in
  let dog := Task.mk (js "2") (js "Walk dog") false in
  let st := setFilter Filter.active (setTasks (fun _ => [dog; milk]) initial) in
  exists v1 v2,
    filteredTasks st = v1 ++ dog :: v2 /\
    filteredTasks (toggleTask (js "2") st) = v1 ++ v2.
Proof.
  intros milk dog st.
  refine (@toggled_task_leaves dog st _ _ _).
  - unfold ids_unique. simpl. repeat constructor; simpl; intuition discriminate.
  - discriminate.
  - left. reflexivity.
Defined.

(** ** Loading what cannot be read *)

(** X14.  When the read is rejected, the key is absent, the stored string
    is empty, or it is not a JSON text, the load effect changes nothing:
    every cell of the state, the task list included, is what it was. *)
Theorem load_falls_back (item : GetItem) (st : State) :
  item = Rejected \/ item = Resolved None \/
  item = Resolved (Some JSString.empty) \/
  (exists raw, item = Resolved (Some raw) /\ JSON.parse raw = None) ->
  load item st = Ready st.
Proof.
  intros [-> | [-> | [-> | (raw & -> & H)]]]; try reflexivity.
  now apply load_syntax_error.
Qed.

Lemma load_falls_back_witness :
  load Rejected initial = Ready initial /\
  load (Resolved (Some (jsq "[{'id':'1','title':'Buy milk','completed':fal")))
       initial = Ready initial.
Proof.
  split.
  - apply load_falls_back. now left.
  - apply load_falls_back. right. right. right. eexists. split; reflexivity.
Defined.

(** ** What an event leaves alone *)

(** Opening the editor on a row replaces whatever session was open:
    the id and the draft of the earlier session are dropped, and no task is
    written. *)
Lemma startEditing_replaces (first second : Task.t) (draft : jsstring) (st : State) :
  startEditing second (setEditingText draft (startEditing first st))
  = startEditing second st /\
  tasks (startEditing second (setEditingText draft (startEditing first st)))
  = tasks st.
Proof. split; reflexivity. Qed.

Section Frame.

Variable Number_toString : float -> jsstring.

(** X15.  Each event touches its own cells only.  Typing in the header
    changes nothing but the pending text; a chip changes nothing but the
    filter; typing in a row's editor changes nothing but the draft; a
    submit of the header leaves the filter and the edit session alone; a
    press, a long press and a submit of the editor never change the pending
    text or the filter, and a long press never changes the edit session. *)
Theorem event_frame (e : Event) (st : State) :
  let st' := handle Number_toString e st in
  match e with
  | InputChange _ =>
      tasks st' = tasks st /\ filter st' = filter st /\
      editingId st' = editingId st /\ editingText st' = editingText st
  | InputSubmit _ _ =>
      filter st' = filter st /\
      editingId st' = editingId st /\ editingText st' = editingText st
  | ChipPress _ =>
      tasks st' = tasks st /\ text st' = text st /\
      editingId st' = editingId st /\ editingText st' = editingText st
  | RowPress _ _ _ => text st' = text st /\ filter st' = filter st
  | RowLongPress _ _ =>
      text st' = text st /\ filter st' = filter st /\
      editingId st' = editingId st /\ editingText st' = editingText st
  | EditorChange _ =>
      tasks st' = tasks st /\ text st' = text st /\
      filter st' = filter st /\ editingId st' = editingId st
  | EditorSubmit => text st' = text st /\ filter st' = filter st
  end.
Proof.
  destruct e as [s|now random|f|item now lastTap|item pressed|s|]; simpl;
    try (repeat split; reflexivity).
  - unfold addTask. destruct (JSString.is_empty (JSString.trim (text st)));
      repeat split.
  - destruct (now - lastTap <? 250)%float; split; reflexivity.
  - destruct pressed as [[|]|]; repeat split.
  - unfold commitEditing. destruct (no_editingId (editingId st)); [now split|].
    destruct (JSString.is_empty (JSString.trim (editingText st))); now split.
Qed.

End Frame.
